(** * bus1 message lifecycle: a shallow embedding of ipc/bus1/message.c

    The six functions of message.c are transcribed as Rocq functions.
    Machine integers are [Z] with the 64-bit wrap-around written out.
    Pointers that may be NULL are [option]s.  The collaborators whose code
    lives in other files of bus1 (pool.c, user.c, handle.c) are interfaces
    (type classes) with the operations section 6 of the specification lists;
    the Linux primitives message.c calls (kmalloc, the descriptor table,
    file reference counts) are a small concrete model. *)

From stdpp Require Import base numbers option list gmap sets.

Local Open Scope Z_scope.

(** ** Machine arithmetic *)

Module Machine.

(** size_t and u64 arithmetic is taken modulo 2^64. *)
Definition u64 (x : Z) : Z := x mod 2 ^ 64.

(** include/linux/kernel.h: ALIGN(x, a) is ((x) + (a) - 1) & ~((a) - 1),
    computed in the (64-bit, unsigned) type of x. *)
Definition ALIGN (x a : Z) : Z :=
  Z.land (u64 (x + (a - 1))) (u64 (Z.lnot (a - 1))).

Definition sizeof_u64 : Z := 8.
Definition sizeof_int : Z := 4.
Definition sizeof_ptr : Z := 8.

Definition ENOMEM : Z := 12.
Definition EFAULT : Z := 14.
Definition EINVAL : Z := 22.
Definition EMFILE : Z := 24.
Definition EDQUOT : Z := 122.

Definition O_CLOEXEC : Z := 524288.

(** WARN_ON(c) prints a warning and evaluates to c; the log is not part
    of the state. *)
Definition WARN_ON (c : bool) : bool := c.

(** A C pointer used as a condition. *)
Definition nonnull {A} (p : option A) : bool :=
  match p with Some _ => true | None => false end.

End Machine.
Import Machine.

(** ** Objects owned by other parts of the kernel *)

Abbreviation bus1_user := nat (only parsing).
Abbreviation file := nat (only parsing).

(** struct bus1_pool_slice: message.c reads its [offset] only. *)
Record bus1_pool_slice := { s_offset : Z; s_size : Z }.

(** struct kvec: the buffer (as the sequence of integers it holds) and its
    length in bytes. *)
Record kvec := { iov_base : list Z; iov_len : Z }.

(** Modelled from the spec: the Pool interface of section 6,
    alloc(size) -> Slice | Exhausted, release(Slice),
    write(Slice, offset, bytes) -> Result.  bus1_pool_alloc returns either
    ERR_PTR(-e) ([inl e]) or a slice; bus1_pool_write_kvec returns the int
    that message.c tests with [r < 0]. *)
Class bus1_pool (P : Type) := {
  bus1_pool_alloc : P → Z → (positive + bus1_pool_slice) * P;
  bus1_pool_release : P → bus1_pool_slice → P;
  bus1_pool_write_kvec :
    P → option bus1_pool_slice → Z → list kvec → Z → Z → Z * P
}.

(** Modelled from the spec: the Resource Accountant interface of section 6,
    charge(user, bytes, handles, fds) -> Result and
    discharge(user, bytes, handles, fds), acting on the quota ledger of the
    destination peer. *)
Class bus1_user_quota (L : Type) := {
  bus1_user_quota_charge : L → option bus1_user → Z → Z → Z → Z * L;
  bus1_user_quota_discharge : L → option bus1_user → Z → Z → Z → L
}.

(** Modelled from the spec: the Resource Accountant is reversible, a
    discharge of the amounts of a successful charge restores the ledger. *)
Class bus1_user_quota_reversible (L : Type) `{bus1_user_quota L} :=
  discharge_charge :
    ∀ (l l' : L) (u : bus1_user) (b h f r : Z),
      bus1_user_quota_charge l (Some u) b h f = (r, l') →
      0 ≤ r →
      bus1_user_quota_discharge l' (Some u) b h f = l.

(** sizeof(struct bus1_message), bus1_handle_batch_inline_size() and
    BUS1_OFFSET_INVALID are declared in message.h, handle.h and the uapi
    header; they are parameters here. *)
Class bus1_layout := {
  sizeof_bus1_message : Z;
  bus1_handle_batch_inline_size : Z → Z;
  BUS1_OFFSET_INVALID : Z
}.

(** struct bus1_peer_info, as far as message.c touches it; its lock is
    held by the caller of the _locked functions. *)
Record bus1_peer_info (P L : Type) := { pool : P; quota : L }.
Arguments pool {P L} _.
Arguments quota {P L} _.

(** ** The part of the kernel state message.c acts on *)

Record kernel := {
  kmalloc_ok : Z → bool;        (* can that many bytes be allocated *)
  rlimit_nofile : nat;          (* RLIMIT_NOFILE of the current process *)
  open_fds : gset Z;            (* slots in use, reserved or bound *)
  close_on_exec : gset Z;
  fdt : gmap Z file;            (* slot -> installed file *)
  f_count : gmap file nat       (* reference count of every live file *)
}.

Definition set_fds (k : kernel) (o c : gset Z) (t : gmap Z file) : kernel :=
  {| kmalloc_ok := kmalloc_ok k; rlimit_nofile := rlimit_nofile k;
     open_fds := o; close_on_exec := c; fdt := t; f_count := f_count k |}.

Definition set_f_count (k : kernel) (c : gmap file nat) : kernel :=
  {| kmalloc_ok := kmalloc_ok k; rlimit_nofile := rlimit_nofile k;
     open_fds := open_fds k; close_on_exec := close_on_exec k;
     fdt := fdt k; f_count := c |}.

(** Modelled from the spec: allocation fails with an out-of-memory
    condition, and with nothing else.  kmalloc(size, flags) is the test of
    its result against NULL; kmalloc(0) returns ZERO_SIZE_PTR, which is not
    NULL. *)
Definition kmalloc (size : Z) (k : kernel) : bool :=
  (size =? 0) || kmalloc_ok k size.

(** The lowest free slot among [fd], [fd+1], ..., [fd+n-1]. *)
Fixpoint find_next_fd (bits : gset Z) (fd : Z) (n : nat) : option Z :=
  match n with
  | O => None
  | S n' => if decide (fd ∈ bits) then find_next_fd bits (fd + 1) n'
            else Some fd
  end.

(** Modelled from the spec: a reservation yields a fresh descriptor slot
    or fails on descriptor-table exhaustion.  get_unused_fd_flags(flags)
    reserves the lowest free slot below the limit, or fails with -EMFILE. *)
Definition get_unused_fd_flags (flags : Z) (k : kernel) : Z * kernel :=
  match find_next_fd (open_fds k) 0 (rlimit_nofile k) with
  | Some fd =>
      (fd, set_fds k ({[fd]} ∪ open_fds k)
                     (if Z.land flags O_CLOEXEC =? 0
                      then close_on_exec k ∖ {[fd]}
                      else {[fd]} ∪ close_on_exec k)
                     (fdt k))
  | None => (- EMFILE, k)
  end.

(** Modelled from the spec: releasing a reserved slot is a pure slot
    deallocation.  put_unused_fd(fd) gives the slot back. *)
Definition put_unused_fd (fd : Z) (k : kernel) : kernel :=
  set_fds k (open_fds k ∖ {[fd]}) (close_on_exec k) (fdt k).

(** Modelled from the spec: binding a reserved slot to a file does not
    fail.  fd_install(fd, file) binds the slot. *)
Definition fd_install (fd : Z) (f : file) (k : kernel) : kernel :=
  set_fds k (open_fds k) (close_on_exec k) (<[fd := f]> (fdt k)).

(** Modelled from the spec: the process's table takes an additional
    reference on the file.  get_file(f) takes it and returns f. *)
Definition get_file (f : file) (k : kernel) : file * kernel :=
  (f, set_f_count k (alter S f (f_count k))).

(** Modelled from the spec: Destroy releases every held file reference.
    fput(f) drops one reference; the last one releases the file. *)
Definition fput (f : file) (k : kernel) : kernel :=
  set_f_count k
    match f_count k !! f with
    | Some (S (S n)) => <[f := S n]> (f_count k)
    | Some _ => delete f (f_count k)
    | None => f_count k
    end.

(** Modelled from the spec: Bind takes a reference on the user and stores
    it, Unbind releases the reference and clears the field.
    bus1_user_ref(user) returns its argument and bus1_user_unref(user)
    returns NULL; the counter they move is inside the user object. *)
Definition bus1_user_ref (u : option bus1_user) : option bus1_user := u.
Definition bus1_user_unref (u : option bus1_user) : option bus1_user := None.

(** Modelled from the spec: Unbind releases the slice back to the pool
    and clears the field.  bus1_pool_release_kernel(pool, slice) releases
    the slice and returns NULL. *)
Definition bus1_pool_release_kernel `{bus1_pool P}
    (p : P) (s : option bus1_pool_slice) : option bus1_pool_slice * P :=
  match s with
  | Some s => (None, bus1_pool_release p s)
  | None => (None, p)
  end.

(** ** struct bus1_message *)

Inductive bus1_queue_node_type :=
  | BUS1_QUEUE_NODE_MESSAGE_NORMAL
  | BUS1_QUEUE_NODE_MESSAGE_SILENT.

Record bus1_queue_node := { qn_type : bus1_queue_node_type }.

(** Modelled from the spec: the queue linkage is tagged silent or normal
    at creation. *)
Definition bus1_queue_node_init (t : bus1_queue_node_type)
    : bus1_queue_node :=
  {| qn_type := t |}.

Record bus1_msg_data := {
  destination : Z; uid : Z; gid : Z; pid : Z; tid : Z;
  offset : Z; n_bytes : Z; n_handles : Z; n_fds : Z
}.

(** Links to objects of the transaction layer, as opaque addresses. *)
Record bus1_message_transaction := {
  next : option nat; handle : option nat; raw_peer : option nat
}.

(** Modelled from the spec: the Handle Inflight Tracker holds the handles
    of one message and produces their identifiers as a sequence of chunks
    (the inline block, then the overflow blocks). *)
Record bus1_handle_inflight := {
  n_entries : Z;
  chunks : list (list Z)
}.

(** Modelled from the spec: init(count); the handles are registered later
    by the transaction layer. *)
Definition bus1_handle_inflight_init (n : Z) : bus1_handle_inflight :=
  {| n_entries := n; chunks := [] |}.

(** Modelled from the spec: next_chunk(cursor) -> (ids, advanced_cursor) |
    empty.  The cursor (pos and ids in message.c) is the part of the
    sequence not yet visited; the result 0 says that nothing is left. *)
Definition bus1_handle_inflight_walk (cursor : list (list Z))
    : Z * list Z * list (list Z) :=
  match cursor with
  | [] => (0, [], [])
  | ids :: cursor' => (Z.of_nat (length ids), ids, cursor')
  end.

Record bus1_message := {
  qnode : bus1_queue_node;
  data : bus1_msg_data;
  transaction : bus1_message_transaction;
  user : option bus1_user;
  slice : option bus1_pool_slice;
  handles : bus1_handle_inflight;
  files : list (option file)
}.

Definition set_binding (m : bus1_message) (u : option bus1_user)
    (s : option bus1_pool_slice) (off : Z) : bus1_message :=
  {| qnode := qnode m;
     data := {| destination := destination (data m); uid := uid (data m);
                gid := gid (data m); pid := pid (data m); tid := tid (data m);
                offset := off; n_bytes := n_bytes (data m);
                n_handles := n_handles (data m); n_fds := n_fds (data m) |};
     transaction := transaction m; user := u; slice := s;
     handles := handles m; files := files m |}.

Definition set_slice (m : bus1_message) (s : option bus1_pool_slice)
    : bus1_message :=
  {| qnode := qnode m; data := data m; transaction := transaction m;
     user := user m; slice := s; handles := handles m; files := files m |}.

Definition set_user (m : bus1_message) (u : option bus1_user)
    : bus1_message :=
  {| qnode := qnode m; data := data m; transaction := transaction m;
     user := u; slice := slice m; handles := handles m; files := files m |}.

(** ** message.c *)

Section message.
Context {P L : Type}
  `{pool_ops : !bus1_pool P, quota_ops : !bus1_user_quota L,
    layout : !bus1_layout}.

Abbreviation peer := (bus1_peer_info P L).

(** bus1_message_new(): [inl e] is ERR_PTR(e). *)
Definition bus1_message_new (n_bytes n_files n_handles : Z) (silent : bool)
    (k : kernel) : Z + bus1_message :=
  let base_size :=
    ALIGN (u64 (sizeof_bus1_message +
                bus1_handle_batch_inline_size n_handles)) 8 in
  let fds_size := u64 (n_files * sizeof_ptr) in
  if negb (kmalloc (u64 (base_size + fds_size)) k) then
    inl (- ENOMEM)
  else
    inr {| qnode := bus1_queue_node_init
                      (if silent then BUS1_QUEUE_NODE_MESSAGE_SILENT
                       else BUS1_QUEUE_NODE_MESSAGE_NORMAL);
           data := {| destination := 0; uid := -1; gid := -1;
                      pid := 0; tid := 0;
                      offset := BUS1_OFFSET_INVALID;
                      n_bytes := n_bytes;
                      n_handles := n_handles;
                      n_fds := n_files |};
           transaction := {| next := None; handle := None;
                             raw_peer := None |};
           user := None;
           slice := None;
           handles := bus1_handle_inflight_init n_handles;
           files := replicate (Z.to_nat n_files) None |}.

(** The loop of bus1_message_free(): for i in [i, i + todo),
    if (message->files[i]) fput(message->files[i]). *)
Fixpoint free_files (fs : list (option file)) (i todo : nat) (k : kernel)
    : kernel :=
  match todo with
  | O => k
  | S todo' =>
      free_files fs (S i) todo'
        match fs !! i with
        | Some (Some f) => fput f k
        | _ => k
        end
  end.

(** bus1_message_free(): the handle batch, the queue node and the memory
    of the message go away with the message value. *)
Definition bus1_message_free (message : option bus1_message) (k : kernel)
    : option bus1_message * kernel :=
  match message with
  | None => (None, k)
  | Some m =>
      let _ := WARN_ON (nonnull (slice m)) in
      let _ := WARN_ON (nonnull (user m)) in
      let _ := WARN_ON (nonnull (raw_peer (transaction m))) in
      let _ := WARN_ON (nonnull (handle (transaction m))) in
      let _ := WARN_ON (nonnull (next (transaction m))) in
      (None, free_files (files m) 0 (Z.to_nat (n_fds (data m))) k)
  end.

(** The size bus1_message_allocate_locked() asks the pool for. *)
Definition slice_size (m : bus1_message) : Z :=
  u64 (u64 (ALIGN (n_bytes (data m)) 8 +
            ALIGN (u64 (n_handles (data m) * sizeof_u64)) 8) +
       ALIGN (u64 (n_fds (data m) + sizeof_int)) 8).

(** bus1_message_allocate_locked() *)
Definition bus1_message_allocate_locked (message : bus1_message)
    (peer_info : peer) (u : bus1_user) : Z * bus1_message * peer :=
  if WARN_ON (nonnull (user message) || nonnull (slice message)) then
    (- EINVAL, message, peer_info)
  else
    let '(r, q) :=
      bus1_user_quota_charge (quota peer_info) (Some u)
        (n_bytes (data message)) (n_handles (data message))
        (n_fds (data message)) in
    if r <? 0 then
      (r, message, {| pool := pool peer_info; quota := q |})
    else
      match bus1_pool_alloc (pool peer_info) (slice_size message) with
      | (inl e, p) =>
          (- Z.pos e, message,
           {| pool := p;
              quota := bus1_user_quota_discharge q (Some u)
                         (n_bytes (data message))
                         (n_handles (data message))
                         (n_fds (data message)) |})
      | (inr s, p) =>
          (0, set_binding message (bus1_user_ref (Some u)) (Some s)
                (s_offset s),
           {| pool := p; quota := q |})
      end.

(** bus1_message_deallocate_locked() *)
Definition bus1_message_deallocate_locked (message : bus1_message)
    (peer_info : peer) : bus1_message * peer :=
  let '(message, peer_info) :=
    if nonnull (slice message) then
      let q := bus1_user_quota_discharge (quota peer_info) (user message)
                 (n_bytes (data message)) (n_handles (data message))
                 (n_fds (data message)) in
      let '(s, p) := bus1_pool_release_kernel (pool peer_info)
                       (slice message) in
      (set_slice message s, {| pool := p; quota := q |})
    else (message, peer_info) in
  (set_user message (bus1_user_unref (user message)), peer_info).

(** The while loop of bus1_message_install_handles(); each round is one
    call of bus1_handle_inflight_walk() (see [install_handles_loop_walk]). *)
Fixpoint install_handles_loop (s : option bus1_pool_slice)
    (cursor : list (list Z)) (offset : Z) (p : P) : Z * P :=
  match cursor with
  | [] => (0, p)
  | ids :: cursor' =>
      let n := Z.of_nat (length ids) in
      if 0 <? n then
        let vec := {| iov_base := ids; iov_len := u64 (n * sizeof_u64) |} in
        let '(r, p') :=
          bus1_pool_write_kvec p s offset [vec] 1 (iov_len vec) in
        if r <? 0 then (r, p')
        else install_handles_loop s cursor'
               (u64 (offset + u64 (n * sizeof_u64))) p'
      else (0, p)
  end.

(** bus1_message_install_handles() *)
Definition bus1_message_install_handles (message : bus1_message)
    (peer_info : peer) : Z * bus1_message * peer :=
  let offset := ALIGN (n_bytes (data message)) 8 in
  let '(r, p) :=
    install_handles_loop (slice message) (chunks (handles message))
      offset (pool peer_info) in
  (r, message, {| pool := p; quota := quota peer_info |}).

(** while (i--) put_unused_fd(fds[i]); *)
Fixpoint unreserve_down (fds : list Z) (i : nat) (k : kernel) : kernel :=
  match i with
  | O => k
  | S j => unreserve_down fds j (put_unused_fd (fds !!! j) k)
  end.

(** The first loop of bus1_message_install_fds(): [fds] holds the slots
    reserved so far, so i = length fds. *)
Fixpoint reserve_fds (todo : nat) (fds : list Z) (k : kernel)
    : (Z * kernel) + (list Z * kernel) :=
  match todo with
  | O => inr (fds, k)
  | S todo' =>
      let '(r, k') := get_unused_fd_flags O_CLOEXEC k in
      if r <? 0 then inl (r, unreserve_down fds (length fds) k')
      else reserve_fds todo' (fds ++ [r]) k'
  end.

(** for (i = 0; i < n_fds; ++i) put_unused_fd(fds[i]); *)
Fixpoint unreserve_up (fds : list Z) (i todo : nat) (k : kernel) : kernel :=
  match todo with
  | O => k
  | S todo' => unreserve_up fds (S i) todo' (put_unused_fd (fds !!! i) k)
  end.

(** for (i = 0; i < n_fds; ++i) fd_install(fds[i], get_file(files[i]));
    get_file() of a NULL slot dereferences NULL: [None]. *)
Fixpoint install_files (fds : list Z) (fs : list (option file))
    (i todo : nat) (k : kernel) : option kernel :=
  match todo with
  | O => Some k
  | S todo' =>
      match fs !! i with
      | Some (Some f) =>
          let '(f', k') := get_file f k in
          install_files fds fs (S i) todo' (fd_install (fds !!! i) f' k')
      | _ => None
      end
  end.

(** bus1_message_install_fds(); [None] is the NULL dereference above. *)
Definition bus1_message_install_fds (message : bus1_message)
    (peer_info : peer) (k : kernel)
    : option (Z * bus1_message * peer * kernel) :=
  let n := Z.to_nat (n_fds (data message)) in
  if negb (kmalloc (u64 (n_fds (data message) * sizeof_int)) k) then
    Some (- ENOMEM, message, peer_info, k)
  else
    match reserve_fds n [] k with
    | inl (r, k') => Some (r, message, peer_info, k')
    | inr (fds, k') =>
        let vec := {| iov_base := fds;
                      iov_len := u64 (n_fds (data message) * sizeof_int) |} in
        let offset :=
          u64 (ALIGN (n_bytes (data message)) 8 +
               ALIGN (u64 (n_handles (data message) * sizeof_u64)) 8) in
        let '(r, p) :=
          bus1_pool_write_kvec (pool peer_info) (slice message) offset
            [vec] 1 (iov_len vec) in
        let peer_info' := {| pool := p; quota := quota peer_info |} in
        if r <? 0 then
          Some (r, message, peer_info', unreserve_up fds 0 n k')
        else
          k'' ← install_files fds (files message) 0 n k';
          Some (0, message, peer_info', k'')
    end.

End message.

(** ** Notions the properties are stated with *)

Section notions.
Context {P L : Type}
  `{pool_ops : !bus1_pool P, quota_ops : !bus1_user_quota L,
    layout : !bus1_layout}.

Abbreviation peer := (bus1_peer_info P L).

(** The paired invariant of the data model: a slice is held exactly when
    a user is accounted. *)
Definition paired (m : bus1_message) : Prop :=
  slice m ≠ None ↔ user m ≠ None.

(** The messages that Create, Bind and Unbind can produce, each Bind and
    Unbind against any state of any peer. *)
Inductive lifecycle : bus1_message → Prop :=
  | lifecycle_create n_bytes n_files n_handles silent k m :
      bus1_message_new n_bytes n_files n_handles silent k = inr m →
      lifecycle m
  | lifecycle_bind m (peer_info : peer) u :
      lifecycle m →
      lifecycle (bus1_message_allocate_locked m peer_info u).1.2
  | lifecycle_unbind m (peer_info : peer) :
      lifecycle m →
      lifecycle (bus1_message_deallocate_locked m peer_info).1.

(** The four ways through bus1_message_allocate_locked(), each with the
    result it returns. *)
Inductive allocate_path (m : bus1_message) (pi : peer) (u : bus1_user)
    : Z * bus1_message * peer → Prop :=
  | path_already_bound :
      user m ≠ None ∨ slice m ≠ None →
      allocate_path m pi u (- EINVAL, m, pi)
  | path_charge_refused r q :
      user m = None → slice m = None →
      bus1_user_quota_charge (quota pi) (Some u) (n_bytes (data m))
        (n_handles (data m)) (n_fds (data m)) = (r, q) →
      r < 0 →
      allocate_path m pi u (r, m, {| pool := pool pi; quota := q |})
  | path_pool_exhausted r q e p :
      user m = None → slice m = None →
      bus1_user_quota_charge (quota pi) (Some u) (n_bytes (data m))
        (n_handles (data m)) (n_fds (data m)) = (r, q) →
      0 ≤ r →
      bus1_pool_alloc (pool pi) (slice_size m) = (inl e, p) →
      allocate_path m pi u
        (- Z.pos e, m,
         {| pool := p;
            quota := bus1_user_quota_discharge q (Some u) (n_bytes (data m))
                       (n_handles (data m)) (n_fds (data m)) |})
  | path_bound r q s p :
      user m = None → slice m = None →
      bus1_user_quota_charge (quota pi) (Some u) (n_bytes (data m))
        (n_handles (data m)) (n_fds (data m)) = (r, q) →
      0 ≤ r →
      bus1_pool_alloc (pool pi) (slice_size m) = (inr s, p) →
      allocate_path m pi u
        (0, set_binding m (Some u) (Some s) (s_offset s),
         {| pool := p; quota := q |}).

(** The descriptor slots in use in [k'] that were not in use in [k]. *)
Definition new_fds (k k' : kernel) : gset Z := open_fds k' ∖ open_fds k.

(** Slots [fds], none of them in use in [k0], are what [k] has in use
    beyond [k0]; nothing is bound to them. *)
Definition reserved (k0 : kernel) (fds : list Z) (k : kernel) : Prop :=
  open_fds k = open_fds k0 ∪ list_to_set fds ∧
  NoDup fds ∧
  (∀ x, x ∈ fds → x ∉ open_fds k0) ∧
  fdt k = fdt k0.

(** Follows the specification of InstallHandles: the chunks are written
    one after the other, chunk number j at align8(n_bytes) plus the byte
    lengths of the chunks before it; a zero-length chunk ends the
    sequence.  [before] is the byte length of the chunks already listed. *)
Fixpoint chunk_writes (base before : Z) (cs : list (list Z))
    : list (Z * kvec) :=
  match cs with
  | [] => []
  | ids :: cs' =>
      let len := 8 * Z.of_nat (length ids) in
      if 0 <? Z.of_nat (length ids) then
        (u64 (base + before),
         {| iov_base := ids; iov_len := u64 len |})
        :: chunk_writes base (before + len) cs'
      else []
  end.

(** Follows the specification of InstallHandles: the writes are issued in
    order, the first failing one aborts with its error, and the result is
    success when none is left. *)
Fixpoint write_all (s : option bus1_pool_slice) (ws : list (Z * kvec))
    (p : P) : Z * P :=
  match ws with
  | [] => (0, p)
  | (off, vec) :: ws' =>
      let '(r, p') := bus1_pool_write_kvec p s off [vec] 1 (iov_len vec) in
      if r <? 0 then (r, p') else write_all s ws' p'
  end.

(** The byte length of the block of slot numbers that
    bus1_message_install_fds() allocates and writes, and the offset in the
    slice it writes it at. *)
Definition fds_len (m : bus1_message) : Z :=
  u64 (n_fds (data m) * sizeof_int).

Definition fds_offset (m : bus1_message) : Z :=
  u64 (ALIGN (n_bytes (data m)) 8 +
       ALIGN (u64 (n_handles (data m) * sizeof_u64)) 8).

(** The three ways bus1_message_install_fds() can fail.  The first: the
    temporary array of slot numbers cannot be allocated. *)
Definition out_of_memory (m : bus1_message) (k : kernel) (r : Z) : Prop :=
  kmalloc (fds_len m) k = false ∧ r = - ENOMEM.

(** ResourceExhausted: a slot reservation fails with [r]. *)
Definition resource_exhausted (m : bus1_message) (k : kernel) (r : Z)
    : Prop :=
  ∃ k', reserve_fds (Z.to_nat (n_fds (data m))) [] k = inl (r, k').

(** WriteFailure: all slots are reserved and the pool write of their
    numbers fails with [r]. *)
Definition write_failure (m : bus1_message) (peer_info : peer) (k : kernel)
    (r : Z) : Prop :=
  ∃ fds k' p,
    reserve_fds (Z.to_nat (n_fds (data m))) [] k = inr (fds, k') ∧
    bus1_pool_write_kvec (pool peer_info) (slice m) (fds_offset m)
      [{| iov_base := fds; iov_len := fds_len m |}] 1 (fds_len m) = (r, p) ∧
    r < 0.

(** The four ways through bus1_message_install_fds(), each with the
    result it returns. *)
Inductive install_fds_path (m : bus1_message) (pi : peer) (k : kernel)
    : option (Z * bus1_message * peer * kernel) → Prop :=
  | path_out_of_memory :
      kmalloc (fds_len m) k = false →
      install_fds_path m pi k (Some (- ENOMEM, m, pi, k))
  | path_resource_exhausted r k' :
      kmalloc (fds_len m) k = true →
      reserve_fds (Z.to_nat (n_fds (data m))) [] k = inl (r, k') →
      install_fds_path m pi k (Some (r, m, pi, k'))
  | path_write_failure fds k' r p :
      kmalloc (fds_len m) k = true →
      reserve_fds (Z.to_nat (n_fds (data m))) [] k = inr (fds, k') →
      bus1_pool_write_kvec (pool pi) (slice m) (fds_offset m)
        [{| iov_base := fds; iov_len := fds_len m |}] 1 (fds_len m) = (r, p) →
      r < 0 →
      install_fds_path m pi k
        (Some (r, m, {| pool := p; quota := quota pi |},
               unreserve_up fds 0 (Z.to_nat (n_fds (data m))) k'))
  | path_installed fds k' r p :
      kmalloc (fds_len m) k = true →
      reserve_fds (Z.to_nat (n_fds (data m))) [] k = inr (fds, k') →
      bus1_pool_write_kvec (pool pi) (slice m) (fds_offset m)
        [{| iov_base := fds; iov_len := fds_len m |}] 1 (fds_len m) = (r, p) →
      0 ≤ r →
      install_fds_path m pi k
        (k'' ← install_files fds (files m) 0
                 (Z.to_nat (n_fds (data m))) k';
         Some (0, m, {| pool := p; quota := quota pi |}, k'')).

(** The error contract of InstallFds as the specification gives it:
    every failure is a ResourceExhausted or a WriteFailure. *)
Definition fails_only_as_specified (m : bus1_message) (peer_info : peer)
    (k : kernel) : Prop :=
  ∀ r m' peer_info' k',
    bus1_message_install_fds m peer_info k = Some (r, m', peer_info', k') →
    r < 0 →
    resource_exhausted m k r ∨ write_failure m peer_info k r.

End notions.

(** ** Simple collaborators

    One concrete pool, one concrete ledger and one layout, used to run the
    functions above on explicit inputs. *)

Module Simple.

(** Modelled from the spec: a Pool is a byte arena from which contiguous,
    offset-addressed slices are allocated and released, and which accepts
    writes at an offset into an allocated slice.  The arena keeps its
    slices sorted by offset and allocates first-fit. *)
Record arena := {
  a_size : Z;
  a_slices : list bus1_pool_slice;
  a_written : list (Z * list Z)     (* absolute offset, data *)
}.

Definition EXFULL : positive := 54.

Fixpoint first_fit (from limit sz : Z) (ss : list bus1_pool_slice)
    : option (bus1_pool_slice * list bus1_pool_slice) :=
  let new := {| s_offset := from; s_size := sz |} in
  match ss with
  | [] => if from + sz <=? limit then Some (new, [new]) else None
  | s :: ss' =>
      if from + sz <=? s_offset s then Some (new, new :: s :: ss')
      else
        '(n, ss'') ← first_fit (s_offset s + s_size s) limit sz ss';
        Some (n, s :: ss'')
  end.

Definition same_slice (a b : bus1_pool_slice) : bool :=
  (s_offset a =? s_offset b) && (s_size a =? s_size b).

Definition arena_alloc (a : arena) (sz : Z)
    : (positive + bus1_pool_slice) * arena :=
  match first_fit 0 (a_size a) sz (a_slices a) with
  | Some (s, ss) =>
      (inr s, {| a_size := a_size a; a_slices := ss;
                 a_written := a_written a |})
  | None => (inl EXFULL, a)
  end.

Definition arena_release (a : arena) (s : bus1_pool_slice) : arena :=
  {| a_size := a_size a;
     a_slices := filter (λ s', same_slice s' s = false) (a_slices a);
     a_written := a_written a |}.

Definition arena_write (a : arena) (s : option bus1_pool_slice) (off : Z)
    (iov : list kvec) (n_iov total_len : Z) : Z * arena :=
  match s with
  | Some s =>
      if existsb (same_slice s) (a_slices a) &&
         (off + total_len <=? s_size s)
      then (total_len,
            {| a_size := a_size a; a_slices := a_slices a;
               a_written := a_written a ++
                 [(s_offset s + off, concat (iov_base <$> iov))] |})
      else (- EFAULT, a)
  | None => (- EFAULT, a)
  end.

#[global] Instance arena_pool : bus1_pool arena := {|
  bus1_pool_alloc := arena_alloc;
  bus1_pool_release := arena_release;
  bus1_pool_write_kvec := arena_write
|}.

(** Modelled from the spec: the quota ledger bounds, per user, the bytes,
    handles and descriptors of all in-flight messages; charge and
    discharge keep it accurate. *)
Record account := {
  in_bytes : Z; in_handles : Z; in_fds : Z;
  max_bytes : Z; max_handles : Z; max_fds : Z
}.

Definition account_add (a : account) (b h f : Z) : account :=
  {| in_bytes := in_bytes a + b; in_handles := in_handles a + h;
     in_fds := in_fds a + f; max_bytes := max_bytes a;
     max_handles := max_handles a; max_fds := max_fds a |}.

Definition ledger_charge (l : gmap nat account) (u : option bus1_user)
    (b h f : Z) : Z * gmap nat account :=
  match u with
  | Some u =>
      match l !! u with
      | Some a =>
          if (in_bytes a + b <=? max_bytes a) &&
             (in_handles a + h <=? max_handles a) &&
             (in_fds a + f <=? max_fds a)
          then (0, <[u := account_add a b h f]> l)
          else (- EDQUOT, l)
      | None => (- EDQUOT, l)
      end
  | None => (- EINVAL, l)
  end.

Definition ledger_discharge (l : gmap nat account) (u : option bus1_user)
    (b h f : Z) : gmap nat account :=
  match u with
  | Some u =>
      match l !! u with
      | Some a => <[u := account_add a (- b) (- h) (- f)]> l
      | None => l
      end
  | None => l
  end.

#[global] Instance ledger_quota : bus1_user_quota (gmap nat account) := {|
  bus1_user_quota_charge := ledger_charge;
  bus1_user_quota_discharge := ledger_discharge
|}.

#[global] Instance layout : bus1_layout := {|
  sizeof_bus1_message := 192;
  bus1_handle_batch_inline_size := λ n, u64 (Z.min n 16 * 16);
  BUS1_OFFSET_INVALID := 2 ^ 64 - 1
|}.

(** A peer with a 4096-byte pool and one user, number 7. *)
Definition peer0 : bus1_peer_info arena (gmap nat account) :=
  {| pool := {| a_size := 4096; a_slices := []; a_written := [] |};
     quota := {[ 7%nat := {| in_bytes := 0; in_handles := 0; in_fds := 0;
                             max_bytes := 1024; max_handles := 16;
                             max_fds := 16 |} ]} |}.

(** The same peer with a pool of 20 bytes only. *)
Definition peer_small : bus1_peer_info arena (gmap nat account) :=
  {| pool := {| a_size := 20; a_slices := []; a_written := [] |};
     quota := quota peer0 |}.

(** A process with slots 0, 1, 2 open on file 1, and files 5, 6, 7 live. *)
Definition kernel0 (mem : Z → bool) (limit : nat) : kernel :=
  {| kmalloc_ok := mem; rlimit_nofile := limit;
     open_fds := {[0; 1; 2]}; close_on_exec := ∅;
     fdt := {[0 := 1%nat; 1 := 1%nat; 2 := 1%nat]};
     f_count := {[1%nat := 3%nat; 5%nat := 1%nat; 6%nat := 1%nat;
                  7%nat := 1%nat]} |}.

(** A message as bus1_message_new() makes it, then filled in by the
    transaction layer. *)
Definition message0 (nb nh nf : Z) (cs : list (list Z))
    (fs : list (option file)) : bus1_message :=
  {| qnode := bus1_queue_node_init BUS1_QUEUE_NODE_MESSAGE_NORMAL;
     data := {| destination := 0; uid := -1; gid := -1; pid := 0; tid := 0;
                offset := BUS1_OFFSET_INVALID; n_bytes := nb;
                n_handles := nh; n_fds := nf |};
     transaction := {| next := None; handle := None; raw_peer := None |};
     user := None; slice := None;
     handles := {| n_entries := nh; chunks := cs |};
     files := fs |}.

(** The message of the end-to-end scenario of the specification:
    16 bytes, 1 handle, 2 files. *)
Definition message_cd : bus1_message :=
  message0 16 1 2 [[42]] [Some 5%nat; Some 6%nat].

(** What bus1_message_new(16, 2, 1, false) returns. *)
Definition message_new : bus1_message :=
  message0 16 1 2 [] [None; None].

(** [message_cd] and [peer0] after Bind for user 7. *)
Definition message_bound : bus1_message :=
  set_binding message_cd (Some 7%nat)
    (Some {| s_offset := 0; s_size := 32 |}) 0.

Definition peer_bound : bus1_peer_info arena (gmap nat account) :=
  {| pool := {| a_size := 4096;
                a_slices := [{| s_offset := 0; s_size := 32 |}];
                a_written := [] |};
     quota := {[ 7%nat := {| in_bytes := 16; in_handles := 1; in_fds := 2;
                             max_bytes := 1024; max_handles := 16;
                             max_fds := 16 |} ]} |}.

(** A message with no payload, no handle and 3 files. *)
Definition message_3fds : bus1_message :=
  message0 0 0 3 [] [Some 5%nat; Some 6%nat; Some 7%nat].

End Simple.

(** ** Notions for the properties of the file references, the descriptor
    table and the layout of the slice *)

(** The number of the slots files[i], ..., files[i + todo - 1] that
    hold [f]. *)
Definition held (fs : list (option file)) (i todo : nat) (f : file) : nat :=
  length (filter (λ o : option file, o = Some f) (take todo (drop i fs))).

(** What fput() (see [fput]) leaves of a reference count after [c] calls:
    the last reference releases the file, and further calls find none. *)
Definition drop_refs (c : nat) (o : option nat) : option nat :=
  match c, o with
  | O, _ => o
  | _, Some n => if decide (c < n)%nat then Some (n - c)%nat else None
  | _, None => None
  end.

(** The writes [ws] cover the bytes from [a] up to [b] of the slice one
    after the other: each holds 8 bytes per identifier and starts where the
    one before it ends. *)
Inductive tiles : Z → list (Z * kvec) → Z → Prop :=
  | tiles_nil a : tiles a [] a
  | tiles_cons a vec ws b :
      iov_len vec = 8 * Z.of_nat (length (iov_base vec)) →
      tiles (a + iov_len vec) ws b →
      tiles a ((a, vec) :: ws) b.

(** The process has the slots of [free], all below its limit, not in use. *)
Definition free_slots (k : kernel) (free : gset Z) : Prop :=
  ∀ x, x ∈ free → 0 ≤ x < Z.of_nat (rlimit_nofile k) ∧ x ∉ open_fds k.

(** * Properties *)

(** ** Machine arithmetic *)

Lemma u64_small x : 0 ≤ x < 2 ^ 64 → u64 x = x.
Proof. unfold u64. intros. by apply Z.mod_small. Qed.

Lemma u64_add_l x y : u64 (u64 x + y) = u64 (x + y).
Proof. unfold u64. by rewrite Zplus_mod_idemp_l. Qed.

Lemma u64_add_r x y : u64 (x + u64 y) = u64 (x + y).
Proof. unfold u64. by rewrite Zplus_mod_idemp_r. Qed.

Lemma ALIGN_range x a : 0 ≤ ALIGN x a < 2 ^ 64.
Proof.
  assert (ALIGN x a =
          Z.land (x + (a - 1)) (u64 (Z.lnot (a - 1))) mod 2 ^ 64) as ->.
  { unfold ALIGN. unfold u64 at 1.
    rewrite <- !(Z.land_ones _ 64) by lia.
    by rewrite <- Z.land_assoc, (Z.land_comm (Z.ones 64)), Z.land_assoc. }
  apply Z.mod_pos_bound. lia.
Qed.

(** Without wrap-around ALIGN(x, 8) is x rounded up to a multiple of 8. *)
Lemma ALIGN_8 x : 0 ≤ x → x + 7 < 2 ^ 64 → ALIGN x 8 = 8 * ((x + 7) / 8).
Proof.
  intros Hx Hlt. unfold ALIGN, u64.
  rewrite (Z.mod_small (x + (8 - 1))) by lia.
  change (Z.lnot (8 - 1) mod 2 ^ 64) with (Z.ldiff (Z.ones 64) (Z.ones 3)).
  change (8 - 1) with 7.
  assert (Z.land (x + 7) (Z.ldiff (Z.ones 64) (Z.ones 3))
          = Z.ldiff (Z.land (x + 7) (Z.ones 64)) (Z.ones 3)) as ->.
  { apply Z.bits_inj'. intros i Hi.
    rewrite !Z.land_spec, !Z.ldiff_spec, Z.land_spec.
    by destruct (Z.testbit (x + 7) i), (Z.testbit (Z.ones 64) i). }
  rewrite Z.land_ones, Z.mod_small by lia.
  rewrite Z.ldiff_ones_r, Z.shiftl_mul_pow2, Z.shiftr_div_pow2 by lia.
  change (2 ^ 3) with 8. lia.
Qed.

(** ** Bind and Unbind *)

(** The size Bind asks for, for counts that are limited as the comment in
    bus1_message_allocate_locked() says: the descriptor region is n_fds + 4
    bytes rounded up to a multiple of 8. *)
Lemma slice_size_limited m :
  0 ≤ n_bytes (data m) → 0 ≤ n_handles (data m) → 0 ≤ n_fds (data m) →
  n_bytes (data m) + 8 * n_handles (data m) + n_fds (data m) + 32 < 2 ^ 64 →
  slice_size m =
    8 * ((n_bytes (data m) + 7) / 8) + 8 * n_handles (data m) +
    8 * ((n_fds (data m) + 4 + 7) / 8).
Proof.
  intros Hb Hh Hf Hlim. unfold slice_size, sizeof_u64, sizeof_int.
  rewrite (u64_small (n_handles (data m) * 8)) by lia.
  rewrite (u64_small (n_fds (data m) + 4)) by lia.
  rewrite !ALIGN_8 by lia.
  assert (0 ≤ 8 * ((n_bytes (data m) + 7) / 8) ≤ n_bytes (data m) + 7)
    by (Z.div_mod_to_equations; lia).
  assert (8 * ((n_handles (data m) * 8 + 7) / 8) = 8 * n_handles (data m))
    as -> by (Z.div_mod_to_equations; lia).
  assert (0 ≤ 8 * ((n_fds (data m) + 4 + 7) / 8) ≤ n_fds (data m) + 11)
    by (Z.div_mod_to_equations; lia).
  rewrite (u64_small (_ + 8 * n_handles (data m))) by lia.
  by rewrite u64_small by lia.
Qed.

(** From 3 descriptors on, n_fds + 4 bytes are fewer than the n_fds * 4
    bytes InstallFds writes, also after rounding up. *)
Lemma fd_region_undersized nf :
  3 ≤ nf → 8 * ((nf + 4 + 7) / 8) < 8 * ((nf * 4 + 7) / 8).
Proof. intros. Z.div_mod_to_equations; lia. Qed.

(** So for limited counts and at least 3 descriptors the slice Bind asks
    for is smaller than the three regions of the layout. *)
Lemma slice_size_undersized m :
  0 ≤ n_bytes (data m) → 0 ≤ n_handles (data m) → 3 ≤ n_fds (data m) →
  n_bytes (data m) + 8 * n_handles (data m) + n_fds (data m) + 32 < 2 ^ 64 →
  slice_size m <
    8 * ((n_bytes (data m) + 7) / 8) + 8 * n_handles (data m) +
    8 * ((n_fds (data m) * 4 + 7) / 8).
Proof.
  intros Hb Hh Hf Hlim. rewrite slice_size_limited by lia.
  pose proof (fd_region_undersized (n_fds (data m)) Hf). lia.
Qed.

Section binder.
Context {P L : Type}
  `{pool_ops : !bus1_pool P, quota_ops : !bus1_user_quota L,
    layout : !bus1_layout}.

Abbreviation peer := (bus1_peer_info P L).

Lemma set_user_unbound m : user m = None → set_user m None = m.
Proof. destruct m; simpl; by intros ->. Qed.

Lemma allocate_locked_path m (pi : peer) u :
  allocate_path m pi u (bus1_message_allocate_locked m pi u).
Proof.
  unfold bus1_message_allocate_locked, WARN_ON.
  destruct (user m) as [u0|] eqn:Hu; simpl.
  { apply path_already_bound. left. congruence. }
  destruct (slice m) as [s0|] eqn:Hs; simpl.
  { apply path_already_bound. right. congruence. }
  destruct (bus1_user_quota_charge _ _ _ _ _) as [r q] eqn:Hc.
  destruct (Z.ltb_spec r 0); [by eapply path_charge_refused|].
  destruct (bus1_pool_alloc _ _) as [[e|s] p] eqn:Ha.
  - by eapply path_pool_exhausted.
  - by eapply path_bound.
Qed.

Lemma deallocate_locked_bound m (pi : peer) s :
  slice m = Some s →
  bus1_message_deallocate_locked m pi =
    (set_user (set_slice m None) None,
     {| pool := bus1_pool_release (pool pi) s;
        quota := bus1_user_quota_discharge (quota pi) (user m)
                   (n_bytes (data m)) (n_handles (data m))
                   (n_fds (data m)) |}).
Proof. intros Hs. unfold bus1_message_deallocate_locked. by rewrite Hs. Qed.

Lemma deallocate_locked_unbound m (pi : peer) :
  slice m = None →
  bus1_message_deallocate_locked m pi = (set_user m None, pi).
Proof. intros Hs. unfold bus1_message_deallocate_locked. by rewrite Hs. Qed.

Lemma deallocate_locked_clears m (pi : peer) :
  user (bus1_message_deallocate_locked m pi).1 = None ∧
  slice (bus1_message_deallocate_locked m pi).1 = None.
Proof.
  destruct (slice m) as [s|] eqn:Hs.
  - by rewrite (deallocate_locked_bound _ _ _ Hs).
  - by rewrite (deallocate_locked_unbound _ _ Hs).
Qed.

Lemma new_unbound n_bytes n_files n_handles silent k m :
  bus1_message_new n_bytes n_files n_handles silent k = inr m →
  user m = None ∧ slice m = None.
Proof.
  unfold bus1_message_new. destruct (negb _); [done|].
  by intros [= <-].
Qed.

Lemma allocate_locked_bound m (pi : peer) u m' pi' :
  bus1_message_allocate_locked m pi u = (0, m', pi') →
  user m = None ∧ slice m = None ∧
  ∃ r q s p,
    bus1_user_quota_charge (quota pi) (Some u) (n_bytes (data m))
      (n_handles (data m)) (n_fds (data m)) = (r, q) ∧ 0 ≤ r ∧
    bus1_pool_alloc (pool pi) (slice_size m) = (inr s, p) ∧
    m' = set_binding m (Some u) (Some s) (s_offset s) ∧
    pi' = {| pool := p; quota := q |}.
Proof.
  intros Hret. pose proof (allocate_locked_path m pi u) as Hpath.
  rewrite Hret in Hpath.
  inversion Hpath as [|r q ? ? ? ?|r q e p|r q s p]; subst; try lia.
  do 2 (split; [done|]). by exists r, q, s, p.
Qed.

Lemma allocate_locked_failed m (pi : peer) u r m' pi' :
  bus1_message_allocate_locked m pi u = (r, m', pi') →
  r ≠ 0 → r < 0 ∧ m' = m.
Proof.
  intros Hret Hr. pose proof (allocate_locked_path m pi u) as Hpath.
  rewrite Hret in Hpath.
  inversion Hpath; subst; try done; split; try done; lia.
Qed.

(** C8: Bind on a message whose accounted_user or slice field is set
    fails at once with -EINVAL (AlreadyBound); the ledger is not charged,
    the pool is not asked, and no field of the message changes. *)
Theorem allocate_locked_already_bound m (pi : peer) u :
  user m ≠ None ∨ slice m ≠ None →
  bus1_message_allocate_locked m pi u = (- EINVAL, m, pi).
Proof.
  intros Hbound.
  destruct (allocate_locked_path m pi u)
    as [|? ? Hu Hs|? ? ? ? Hu Hs|? ? ? ? Hu Hs];
    [done | by destruct Hbound..].
Qed.

(** C3: when Bind has charged the quota and the pool allocation then
    fails, Bind discharges the amounts it charged (n_bytes, n_handles,
    n_fds) for the same user and returns the pool's error; the ledger is
    the one from before the call and the message is unchanged, hence
    still unbound. *)
Theorem allocate_locked_pool_failure_rolls_back
    `{reversible : !bus1_user_quota_reversible L} m (pi : peer) u r q e p :
  user m = None → slice m = None →
  bus1_user_quota_charge (quota pi) (Some u) (n_bytes (data m))
    (n_handles (data m)) (n_fds (data m)) = (r, q) →
  0 ≤ r →
  bus1_pool_alloc (pool pi) (slice_size m) = (inl e, p) →
  bus1_message_allocate_locked m pi u =
    (- Z.pos e, m,
     {| pool := p;
        quota := bus1_user_quota_discharge q (Some u) (n_bytes (data m))
                   (n_handles (data m)) (n_fds (data m)) |}) ∧
  bus1_user_quota_discharge q (Some u) (n_bytes (data m))
    (n_handles (data m)) (n_fds (data m)) = quota pi ∧
  user m = None ∧ slice m = None.
Proof.
  intros Hu Hs Hc Hr Ha.
  destruct (allocate_locked_path m pi u)
    as [[?|?]|r' q' _ _ Hc' Hr'|r' q' e' p' _ _ Hc' _ Ha'
        |r' q' s' p' _ _ _ _ Ha'];
    [done | done | | |].
  - rewrite Hc in Hc'. injection Hc' as <- <-. lia.
  - rewrite Hc in Hc'. injection Hc' as <- <-.
    rewrite Ha in Ha'. injection Ha' as <- <-.
    split; [done|]. split; [|done]. by eapply discharge_charge.
  - rewrite Ha in Ha'. discriminate.
Qed.

(** C5: after a successful Bind for user u, Unbind discharges, for u, the
    amounts (n_bytes, n_handles, n_fds) that Bind charged, and the ledger
    after Bind followed by Unbind is the ledger before Bind. *)
Theorem allocate_deallocate_restores_quota
    `{reversible : !bus1_user_quota_reversible L} m (pi : peer) u m' pi' :
  bus1_message_allocate_locked m pi u = (0, m', pi') →
  quota pi' =
    (bus1_user_quota_charge (quota pi) (Some u) (n_bytes (data m))
       (n_handles (data m)) (n_fds (data m))).2 ∧
  quota (bus1_message_deallocate_locked m' pi').2 =
    bus1_user_quota_discharge (quota pi') (Some u) (n_bytes (data m))
      (n_handles (data m)) (n_fds (data m)) ∧
  quota (bus1_message_deallocate_locked m' pi').2 = quota pi.
Proof.
  intros Hret.
  destruct (allocate_locked_bound _ _ _ _ _ Hret)
    as (_ & _ & r & q & s & p & Hc & Hr & _ & -> & ->).
  rewrite Hc. split; [done|].
  rewrite (deallocate_locked_bound _ _ s); [|done]. simpl.
  split; [done|]. by eapply discharge_charge.
Qed.

(** C7: Unbind is idempotent, a second Unbind leaves the message, the
    pool and the ledger as the first one left them; and Unbind on a
    message that holds neither slice nor user changes nothing. *)
Theorem deallocate_locked_idempotent :
  (∀ m (pi : peer),
     bus1_message_deallocate_locked
       (bus1_message_deallocate_locked m pi).1
       (bus1_message_deallocate_locked m pi).2 =
     bus1_message_deallocate_locked m pi) ∧
  (∀ m (pi : peer),
     user m = None → slice m = None →
     bus1_message_deallocate_locked m pi = (m, pi)).
Proof.
  assert (Hnop : ∀ m (pi : peer), user m = None → slice m = None →
                 bus1_message_deallocate_locked m pi = (m, pi)).
  { intros m pi Hu Hs. rewrite deallocate_locked_unbound; [|done].
    by rewrite set_user_unbound. }
  split; [|done]. intros m pi.
  destruct (deallocate_locked_clears m pi) as [Hu Hs].
  rewrite Hnop; [|done..]. by destruct (bus1_message_deallocate_locked m pi).
Qed.

(** C4: at every point of every sequence of Create, Bind and Unbind the
    slice field is set exactly when the accounted_user field is; Create
    leaves both NULL, a successful Bind sets both, a failed Bind changes
    neither, and Unbind clears both. *)
Theorem lifecycle_paired :
  (∀ m, lifecycle (P:=P) (L:=L) m → paired m) ∧
  (∀ n_bytes n_files n_handles silent k m,
     bus1_message_new n_bytes n_files n_handles silent k = inr m →
     user m = None ∧ slice m = None) ∧
  (∀ m (pi : peer) u m' pi',
     bus1_message_allocate_locked m pi u = (0, m', pi') →
     user m' = Some u ∧ is_Some (slice m')) ∧
  (∀ m (pi : peer) u r m' pi',
     bus1_message_allocate_locked m pi u = (r, m', pi') → r ≠ 0 →
     user m' = user m ∧ slice m' = slice m) ∧
  (∀ m (pi : peer),
     user (bus1_message_deallocate_locked m pi).1 = None ∧
     slice (bus1_message_deallocate_locked m pi).1 = None).
Proof.
  assert (Hbind : ∀ m (pi : peer) u m' pi',
            bus1_message_allocate_locked m pi u = (0, m', pi') →
            user m' = Some u ∧ is_Some (slice m')).
  { intros m pi u m' pi' Hret.
    destruct (allocate_locked_bound _ _ _ _ _ Hret)
      as (_ & _ & r & q & s & p & _ & _ & _ & -> & _).
    simpl. eauto. }
  assert (Hfail : ∀ m (pi : peer) u r m' pi',
            bus1_message_allocate_locked m pi u = (r, m', pi') → r ≠ 0 →
            user m' = user m ∧ slice m' = slice m).
  { intros m pi u r m' pi' Hret Hr.
    by destruct (allocate_locked_failed _ _ _ _ _ _ Hret Hr) as [_ ->]. }
  split; [|split; [|split; [done|split; [done|]]]].
  - induction 1 as [nb nf nh silent k m Hnew|m pi u _ IH|m pi _ _].
    + destruct (new_unbound _ _ _ _ _ _ Hnew) as [Hu Hs].
      unfold paired. rewrite Hu, Hs. done.
    + destruct (bus1_message_allocate_locked m pi u) as [[r m'] pi'] eqn:Hret.
      simpl. destruct (decide (r = 0)) as [->|Hr].
      * destruct (Hbind _ _ _ _ _ Hret) as [Hu [s Hs]].
        unfold paired. rewrite Hu, Hs. done.
      * destruct (Hfail _ _ _ _ _ _ Hret Hr) as [Hu Hs].
        unfold paired. by rewrite Hu, Hs.
    + destruct (deallocate_locked_clears m pi) as [Hu Hs].
      unfold paired. rewrite Hu, Hs. done.
  - apply new_unbound.
  - apply deallocate_locked_clears.
Qed.

(** C10: Destroy of a NULL message is a no-op that returns NULL, and
    Destroy returns NULL for every message. *)
Theorem free_returns_null :
  (∀ k, bus1_message_free None k = (None, k)) ∧
  (∀ message k, (bus1_message_free message k).1 = None).
Proof. split; [done|]. by intros [m|] k. Qed.

End binder.

(** ** InstallHandles *)

Section installer.
Context {P L : Type}
  `{pool_ops : !bus1_pool P, quota_ops : !bus1_user_quota L,
    layout : !bus1_layout}.

Abbreviation peer := (bus1_peer_info P L).

(** Each round of the loop is one call of bus1_handle_inflight_walk(). *)
Lemma install_handles_loop_walk s cursor offset (p : P) :
  install_handles_loop s cursor offset p =
    let '(n, ids, cursor') := bus1_handle_inflight_walk cursor in
    if 0 <? n then
      let vec := {| iov_base := ids; iov_len := u64 (n * sizeof_u64) |} in
      let '(r, p') := bus1_pool_write_kvec p s offset [vec] 1 (iov_len vec) in
      if r <? 0 then (r, p')
      else install_handles_loop s cursor'
             (u64 (offset + u64 (n * sizeof_u64))) p'
    else (0, p).
Proof. by destruct cursor. Qed.

Lemma install_handles_loop_writes s base cs : ∀ before (p : P),
  install_handles_loop s cs (u64 (base + before)) p =
    write_all s (chunk_writes base before cs) p.
Proof.
  induction cs as [|ids cs IH]; intros before p; simpl; [done|].
  destruct (0 <? Z.of_nat (length ids)); [|done]. simpl.
  unfold sizeof_u64.
  replace (Z.of_nat (length ids) * 8) with (8 * Z.of_nat (length ids))
    by lia.
  destruct (bus1_pool_write_kvec _ _ _ _ _ _) as [r p'].
  destruct (r <? 0); [done|].
  rewrite u64_add_l, u64_add_r, <- Z.add_assoc. apply IH.
Qed.

(** C9: InstallHandles writes the chunks of handle identifiers into the
    slice in order, the first at align8(n_bytes) and each next one past
    the bytes (8 per identifier) of those before it; the first failing
    write ends the call with its error, an exhausted sequence ends it
    with 0, and the message (its slice and accounted_user with it) is
    returned as it was. *)
Theorem install_handles_writes m (pi : peer) :
  bus1_message_install_handles m pi =
    let '(r, p) :=
      write_all (slice m)
        (chunk_writes (ALIGN (n_bytes (data m)) 8) 0 (chunks (handles m)))
        (pool pi) in
    (r, m, {| pool := p; quota := quota pi |}).
Proof.
  unfold bus1_message_install_handles.
  rewrite <- install_handles_loop_writes, Z.add_0_r.
  rewrite (u64_small (ALIGN _ _)); [done|]. apply ALIGN_range.
Qed.

End installer.

(** ** The descriptor table *)

Lemma find_next_fd_spec bits n : ∀ fd x,
  find_next_fd bits fd n = Some x → (x ∉ bits) ∧ fd ≤ x < fd + Z.of_nat n.
Proof.
  induction n as [|n IH]; intros fd x; simpl; [done|].
  case_decide.
  - intros [? ?]%IH. split; [done | lia].
  - intros [= <-]. split; [done | lia].
Qed.

Lemma get_unused_fd_flags_spec flags k r k' :
  get_unused_fd_flags flags k = (r, k') →
  (r = - EMFILE ∧ k' = k) ∨
  (0 ≤ r ∧ (r ∉ open_fds k) ∧ open_fds k' = {[r]} ∪ open_fds k ∧
   fdt k' = fdt k).
Proof.
  unfold get_unused_fd_flags.
  destruct (find_next_fd _ _ _) as [fd|] eqn:Hfd.
  - intros [= <- <-]. right.
    apply find_next_fd_spec in Hfd as [? ?]. simpl. by repeat split; try lia.
  - intros [= <- <-]. by left.
Qed.

Lemma unreserve_down_spec fds : ∀ i k,
  fdt (unreserve_down fds i k) = fdt k ∧
  ∀ x, x ∈ open_fds (unreserve_down fds i k) ↔
       x ∈ open_fds k ∧ ∀ j, (j < i)%nat → fds !!! j ≠ x.
Proof.
  induction i as [|i IH]; intros k; simpl.
  { split; [done|]. intros x. split; [|tauto]. intros ?; split; [done|lia]. }
  destruct (IH (put_unused_fd (fds !!! i) k)) as [Hf Ho].
  split; [by rewrite Hf|]. intros x. rewrite Ho. simpl.
  rewrite elem_of_difference, elem_of_singleton. split.
  - intros [[Hx Hne] Hall]. split; [done|]. intros j Hj.
    destruct (decide (j = i)) as [->|]; [congruence | apply Hall; lia].
  - intros [Hx Hall]. split; [split; [done|]|].
    + intros ->. by apply (Hall i); [lia|].
    + intros j Hj. apply Hall. lia.
Qed.

Lemma unreserve_up_spec fds : ∀ todo i k,
  fdt (unreserve_up fds i todo k) = fdt k ∧
  ∀ x, x ∈ open_fds (unreserve_up fds i todo k) ↔
       x ∈ open_fds k ∧ ∀ j, (i ≤ j < i + todo)%nat → fds !!! j ≠ x.
Proof.
  induction todo as [|todo IH]; intros i k; simpl.
  { split; [done|]. intros x. split; [|tauto]. intros ?; split; [done|lia]. }
  destruct (IH (S i) (put_unused_fd (fds !!! i) k)) as [Hf Ho].
  split; [by rewrite Hf|]. intros x. rewrite Ho. simpl.
  rewrite elem_of_difference, elem_of_singleton. split.
  - intros [[Hx Hne] Hall]. split; [done|]. intros j Hj.
    destruct (decide (j = i)) as [->|]; [congruence | apply Hall; lia].
  - intros [Hx Hall]. split; [split; [done|]|].
    + intros ->. by apply (Hall i); [lia|].
    + intros j Hj. apply Hall. lia.
Qed.

(** Giving all of [fds] back restores the slots in use. *)
Lemma reserved_release k0 fds k k' :
  reserved k0 fds k →
  (∀ x, x ∈ open_fds k' ↔
        x ∈ open_fds k ∧ ∀ j, (j < length fds)%nat → fds !!! j ≠ x) →
  open_fds k' = open_fds k0.
Proof.
  intros (Ho & _ & Hfresh & _) Hk'. apply set_eq. intros x.
  rewrite Hk', Ho, elem_of_union, elem_of_list_to_set. split.
  - intros [[Hx|Hx] Hall]; [done|].
    apply list_elem_of_lookup in Hx as [j Hj]. exfalso.
    apply (Hall j); [by eapply lookup_lt_Some|].
    by apply list_lookup_total_correct.
  - intros Hx. split; [by left|]. intros j Hj <-.
    by apply (Hfresh (fds !!! j)); [apply list_elem_of_lookup_total_2|].
Qed.

Lemma reserve_fds_spec k0 : ∀ todo fds k,
  reserved k0 fds k →
  match reserve_fds todo fds k with
  | inl (r, k') =>
      r = - EMFILE ∧ open_fds k' = open_fds k0 ∧ fdt k' = fdt k0
  | inr (fds', k') =>
      length fds' = (length fds + todo)%nat ∧ reserved k0 fds' k'
  end.
Proof.
  induction todo as [|todo IH]; intros fds k Hres; simpl.
  { split; [lia | done]. }
  destruct (get_unused_fd_flags O_CLOEXEC k) as [r k1] eqn:Hg.
  apply get_unused_fd_flags_spec in Hg as [[-> ->]|(Hr & Hnew & Ho & Hf)].
  - change (- EMFILE <? 0) with true. cbv iota.
    destruct (unreserve_down_spec fds (length fds) k) as [Hf Ho].
    split; [done|]. split.
    + by eapply reserved_release.
    + rewrite Hf. apply Hres.
  - destruct (Z.ltb_spec r 0) as [|_]; [lia|].
    assert (reserved k0 (fds ++ [r]) k1) as Hres1.
    { destruct Hres as (Ho0 & Hnd & Hfresh & Hf0).
      assert (r ∉ open_fds k0).
      { intros Hin. apply Hnew. rewrite Ho0, elem_of_union. by left. }
      assert (r ∉ fds).
      { intros Hin. apply Hnew.
        rewrite Ho0, elem_of_union, elem_of_list_to_set. by right. }
      split; [|split; [|split]].
      - rewrite Ho, Ho0, list_to_set_app_L. apply set_eq. intros x.
        rewrite !elem_of_union, !elem_of_list_to_set, list_elem_of_singleton,
          elem_of_singleton.
        tauto.
      - apply NoDup_app. split; [done|]. split; [|apply NoDup_singleton].
        intros x Hx Hr'%list_elem_of_singleton. by subst x.
      - intros x [?|Hx%list_elem_of_singleton]%elem_of_app;
          [auto | by subst x].
      - congruence. }
    specialize (IH _ _ Hres1).
    destruct (reserve_fds _ _ _) as [[r' k']|[fds' k']]; [done|].
    rewrite length_app in IH. simpl in IH.
    destruct IH as [Hlen ?]. split; [lia | done].
Qed.

Lemma install_files_populated fds fs : ∀ todo i k k',
  install_files fds fs i todo k = Some k' →
  ∀ j, (i ≤ j < i + todo)%nat → ∃ f, fs !! j = Some (Some f).
Proof.
  induction todo as [|todo IH]; intros i k k'; simpl; [lia|].
  destruct (fs !! i) as [[f|]|] eqn:Hi; [|done..].
  intros Hrec j Hj. destruct (decide (j = i)) as [->|]; [by exists f|].
  eapply IH; [done | lia].
Qed.

Lemma install_files_spec fds fs : NoDup fds → ∀ todo i k,
  (i + todo ≤ length fds)%nat →
  (∀ j, (i ≤ j < i + todo)%nat → ∃ f, fs !! j = Some (Some f)) →
  ∃ k', install_files fds fs i todo k = Some k' ∧
    open_fds k' = open_fds k ∧
    (∀ j f, (i ≤ j < i + todo)%nat → fs !! j = Some (Some f) →
            fdt k' !! (fds !!! j) = Some f) ∧
    (∀ x, (∀ j, (i ≤ j < i + todo)%nat → fds !!! j ≠ x) →
          fdt k' !! x = fdt k !! x).
Proof.
  intros Hnd. induction todo as [|todo IH]; intros i k Hlen Hpop; simpl.
  { exists k. split; [done|]. split; [done|]. split; [lia | done]. }
  destruct (Hpop i) as [f Hi]; [lia|]. rewrite Hi.
  destruct (IH (S i)
              (fd_install (fds !!! i) f
                 (set_f_count k (alter S f (f_count k)))))
    as (k' & Hk' & Ho & Hin & Hout); [lia | intros; apply Hpop; lia |].
  exists k'. split; [done|]. split; [by rewrite Ho|]. split.
  - intros j g Hj Hg. destruct (decide (j = i)) as [->|].
    + rewrite Hout.
      * simpl. rewrite lookup_insert_eq. congruence.
      * intros j Hj' Heq.
        assert (j = i); [|lia].
        eapply (NoDup_lookup fds); [done| |].
        -- apply list_lookup_lookup_total_lt. lia.
        -- rewrite Heq. apply list_lookup_lookup_total_lt. lia.
    + apply Hin; [lia | done].
  - intros x Hx. rewrite Hout; [|intros; apply Hx; lia].
    simpl. apply lookup_insert_ne. apply Hx. lia.
Qed.

(** ** InstallFds *)

Section fd_installer.
Context {P L : Type}
  `{pool_ops : !bus1_pool P, quota_ops : !bus1_user_quota L,
    layout : !bus1_layout}.

Abbreviation peer := (bus1_peer_info P L).

Lemma install_fds_path_spec m (pi : peer) k :
  install_fds_path m pi k (bus1_message_install_fds m pi k).
Proof.
  unfold bus1_message_install_fds.
  fold (fds_len m). fold (fds_offset m).
  destruct (kmalloc (fds_len m) k) eqn:Hk; simpl;
    [|by apply path_out_of_memory].
  destruct (reserve_fds _ [] k) as [[r k']|[fds k']] eqn:Hr;
    [by apply path_resource_exhausted|].
  simpl.
  destruct (bus1_pool_write_kvec (pool pi) (slice m) (fds_offset m)
              [{| iov_base := fds; iov_len := fds_len m |}] 1 (fds_len m))
    as [r p] eqn:Hw.
  destruct (Z.ltb_spec r 0).
  - by eapply path_write_failure.
  - by eapply path_installed.
Qed.

Lemma reserved_nil k : reserved k [] k.
Proof.
  split; [|split; [apply NoDup_nil_2|split; [|done]]].
  - simpl. apply set_eq. intros x. rewrite elem_of_union.
    split; [by left | intros [?|[]%not_elem_of_empty]; done].
  - by intros x ?%not_elem_of_nil.
Qed.

Lemma reserved_new_fds k0 fds k k' :
  reserved k0 fds k → open_fds k' = open_fds k →
  new_fds k0 k' = list_to_set fds.
Proof.
  intros (Ho & _ & Hfresh & _) Hk'. unfold new_fds. apply set_eq. intros x.
  rewrite Hk', Ho, elem_of_difference, elem_of_union, elem_of_list_to_set.
  split; [tauto|]. intros Hx. split; [by right | by apply Hfresh].
Qed.

(** C2: a call of InstallFds that returns an error leaves the process
    with no slot in use that was not in use before (and none bound);
    one that returns 0 leaves it with exactly n_fds new slots, each bound
    to the file of its index.  It returns whenever the n_fds file slots of
    the message are filled.  The counts are limited, so that the array of
    n_fds slot numbers can be allocated as such. *)
Theorem install_fds_all_or_nothing m (pi : peer) k :
  0 ≤ n_fds (data m) * sizeof_int < 2 ^ 64 →
  (∀ r m' pi' k',
     bus1_message_install_fds m pi k = Some (r, m', pi', k') →
     (r < 0 ∧ size (new_fds k k') = 0%nat ∧
      open_fds k' = open_fds k ∧ fdt k' = fdt k) ∨
     (r = 0 ∧ Z.of_nat (size (new_fds k k')) = n_fds (data m) ∧
      open_fds k ⊆ open_fds k' ∧
      ∃ fds, length fds = Z.to_nat (n_fds (data m)) ∧ NoDup fds ∧
        new_fds k k' = list_to_set fds ∧
        ∀ i fd, fds !! i = Some fd →
          ∃ f, files m !! i = Some (Some f) ∧ fdt k' !! fd = Some f)) ∧
  ((∀ i, (i < Z.to_nat (n_fds (data m)))%nat →
      ∃ f, files m !! i = Some (Some f)) →
   is_Some (bus1_message_install_fds m pi k)).
Proof.
  intros [Hn _]. unfold sizeof_int in Hn.
  pose proof (reserve_fds_spec k (Z.to_nat (n_fds (data m))) [] k
                (reserved_nil k)) as Hres.
  assert (Hsame : ∀ k', open_fds k' = open_fds k →
                        size (new_fds k k') = 0%nat).
  { intros k' Hk'. apply size_empty_iff, elem_of_equiv_empty.
    unfold new_fds. rewrite Hk'.
    intros x. rewrite elem_of_difference. tauto. }
  destruct (install_fds_path_spec m pi k)
    as [_|r k1 _ Hr|fds k1 r p _ Hr _ Hlt|fds k1 r p _ Hr _ _].
  - split; [|eauto]. intros ? ? ? ? [= <- <- <- <-]. left.
    split; [unfold ENOMEM; lia | auto].
  - rewrite Hr in Hres. destruct Hres as (-> & Ho & Hf).
    split; [|eauto]. intros ? ? ? ? [= <- <- <- <-]. left.
    split; [unfold EMFILE; lia | auto].
  - rewrite Hr in Hres. destruct Hres as [Hlen Hres]. simpl in Hlen.
    split; [|eauto]. intros ? ? ? ? [= <- <- <- <-]. left.
    destruct (unreserve_up_spec fds (Z.to_nat (n_fds (data m))) 0%nat k1)
      as [Hf Ho].
    assert (open_fds (unreserve_up fds 0 (Z.to_nat (n_fds (data m))) k1)
            = open_fds k).
    { eapply reserved_release; [done|]. intros x. rewrite Ho, Hlen.
      split; intros [? Hall]; (split; [done|]); intros j ?; apply Hall; lia. }
    split; [done|]. split; [auto|]. split; [done|].
    rewrite Hf. apply Hres.
  - rewrite Hr in Hres. destruct Hres as [Hlen Hres]. simpl in Hlen.
    pose proof Hres as (Ho & Hnd & Hfresh & Hf). split.
    + intros r' m' pi' k' Hret.
      destruct (install_files fds (files m) 0 _ k1) as [k2|] eqn:Hin;
        [|done].
      injection Hret as <- <- <- <-. right.
      pose proof (install_files_populated _ _ _ _ _ _ Hin) as Hpop.
      destruct (install_files_spec fds (files m) Hnd
                  (Z.to_nat (n_fds (data m))) 0%nat k1)
        as (k2' & Hin' & Ho2 & Hbound & _); [lia | done |].
      rewrite Hin in Hin'. injection Hin' as <-.
      pose proof (reserved_new_fds _ _ _ _ Hres Ho2) as Hnew.
      split; [done|]. split; [|split].
      * rewrite Hnew, size_list_to_set; [lia | done].
      * rewrite Ho2, Ho. apply union_subseteq_l.
      * exists fds. do 3 (split; [done|]). intros i fd Hi.
        assert (i < Z.to_nat (n_fds (data m)))%nat
          by (rewrite <- Hlen; by eapply lookup_lt_Some).
        destruct (Hpop i) as [f Hfi]; [lia|]. exists f. split; [done|].
        rewrite <- (list_lookup_total_correct _ _ _ Hi).
        apply Hbound; [lia | done].
    + intros Hpop.
      destruct (install_files_spec fds (files m) Hnd
                  (Z.to_nat (n_fds (data m))) 0%nat k1)
        as (k2 & -> & _); [lia | intros; apply Hpop; lia |].
      simpl. eauto.
Qed.

(** C6, as the code has it: InstallFds fails with -ENOMEM when the
    temporary array of slot numbers cannot be allocated, with the error
    of a failed slot reservation (ResourceExhausted), or with the error
    of the failed pool write (WriteFailure), and in no other way. *)
Theorem install_fds_failures m (pi : peer) k r m' pi' k' :
  bus1_message_install_fds m pi k = Some (r, m', pi', k') →
  r < 0 →
  out_of_memory m k r ∨
  (kmalloc (fds_len m) k = true ∧ resource_exhausted m k r) ∨
  (kmalloc (fds_len m) k = true ∧ write_failure m pi k r).
Proof.
  intros Hret Hneg. pose proof (install_fds_path_spec m pi k) as Hpath.
  rewrite Hret in Hpath.
  inversion Hpath
    as [Hk|? ? Hk Hr|fds k1 ? p Hk Hr Hw|fds k1 r1 p Hk Hr Hw ? Hin];
    subst.
  - by left.
  - right. left. split; [done|]. by exists k'.
  - right. right. split; [done|]. by exists fds, k1, p.
  - destruct (install_files _ _ _ _ _); [|done].
    injection Hin as <- _ _ _. lia.
Qed.

End fd_installer.

(** ** The functions on explicit inputs *)

Lemma simple_ledger_reversible :
  bus1_user_quota_reversible (gmap nat Simple.account).
Proof.
  intros l l' u b h f r. simpl.
  unfold Simple.ledger_charge, Simple.ledger_discharge.
  destruct (l !! u) as [a|] eqn:Hu; [|intros [= <- <-]; unfold EDQUOT; lia].
  destruct (_ && _); intros [= <- <-]; [|unfold EDQUOT; lia]. intros _.
  rewrite lookup_insert_eq, insert_insert_eq. apply insert_id.
  rewrite Hu. f_equal. destruct a. unfold Simple.account_add. simpl.
  f_equal; lia.
Qed.

Lemma simple_new :
  bus1_message_new 16 2 1 false (Simple.kernel0 (λ _, true) 8)
    = inr Simple.message_new.
Proof. reflexivity. Qed.

Lemma simple_bind :
  bus1_message_allocate_locked Simple.message_cd Simple.peer0 7%nat
    = (0, Simple.message_bound, Simple.peer_bound).
Proof. vm_compute. reflexivity. Qed.

(** C1: the size Bind asks the pool for has ALIGN(n_fds + 4, 8) as its
    third term, not align8(n_fds * 4).  For a message with no payload, no
    handle and 3 files, Bind asks for 8 bytes and binds a slice of 8 bytes,
    where align8(0) + align8(0 * 8) + align8(3 * 4) is 16. *)
Theorem allocate_locked_fd_region_size :
  slice_size Simple.message_3fds = 8 ∧
  ALIGN 0 8 + ALIGN (0 * 8) 8 + ALIGN (3 * 4) 8 = 16 ∧
  (bus1_message_allocate_locked Simple.message_3fds Simple.peer0 7%nat).1 =
    (0, set_binding Simple.message_3fds (Some 7%nat)
          (Some {| s_offset := 0; s_size := 8 |}) 0).
Proof. split; [|split]; vm_compute; reflexivity. Qed.

(** With the simple pool, which checks writes against the slice bounds, the
    slot numbers of that message do not fit its slice: InstallFds reserves
    slots 3, 4, 5, fails to write their 12 bytes, and gives the slots
    back. *)
Lemma install_fds_after_undersized_bind :
  let b :=
    bus1_message_allocate_locked Simple.message_3fds Simple.peer0 7%nat in
  let k := Simple.kernel0 (λ _, true) 8 in
  ∃ k', bus1_message_install_fds b.1.2 b.2 k = Some (- EFAULT, b.1.2, b.2, k')
        ∧ open_fds k' = open_fds k.
Proof. eexists. split; vm_compute; reflexivity. Qed.

Lemma install_fds_all_or_nothing_witness :
  is_Some (bus1_message_install_fds Simple.message_bound Simple.peer_bound
             (Simple.kernel0 (λ _, true) 8)).
Proof.
  apply (install_fds_all_or_nothing Simple.message_bound Simple.peer_bound
           (Simple.kernel0 (λ _, true) 8)).
  - simpl. unfold sizeof_int. lia.
  - simpl. intros [|[|i]] Hi; [by eexists.. | lia].
Defined.

Lemma allocate_locked_pool_failure_rolls_back_witness :
  bus1_message_allocate_locked Simple.message_cd Simple.peer_small 7%nat
    = (- 54, Simple.message_cd, Simple.peer_small).
Proof.
  destruct (allocate_locked_pool_failure_rolls_back
              (reversible := simple_ledger_reversible)
              Simple.message_cd Simple.peer_small 7%nat
              0 (quota Simple.peer_bound) Simple.EXFULL
              (pool Simple.peer_small))
    as (Hret & Hquota & _).
  - reflexivity.
  - reflexivity.
  - vm_compute. reflexivity.
  - lia.
  - vm_compute. reflexivity.
  - rewrite Hret, Hquota. reflexivity.
Defined.

Lemma lifecycle_paired_witness :
  paired
    (bus1_message_deallocate_locked
       (bus1_message_allocate_locked Simple.message_new Simple.peer0 7%nat).1.2
       Simple.peer_bound).1.
Proof.
  apply (proj1 (lifecycle_paired (P := Simple.arena)
                  (L := gmap nat Simple.account))).
  apply lifecycle_unbind, lifecycle_bind.
  apply (lifecycle_create 16 2 1 false (Simple.kernel0 (λ _, true) 8)).
  reflexivity.
Defined.

Lemma allocate_deallocate_restores_quota_witness :
  quota (bus1_message_deallocate_locked Simple.message_bound
           Simple.peer_bound).2
    = quota Simple.peer0.
Proof.
  apply (allocate_deallocate_restores_quota
           (reversible := simple_ledger_reversible)
           Simple.message_cd Simple.peer0 7%nat).
  vm_compute. reflexivity.
Defined.

Lemma deallocate_locked_idempotent_witness :
  bus1_message_deallocate_locked Simple.message_cd Simple.peer0
    = (Simple.message_cd, Simple.peer0).
Proof. apply (proj2 deallocate_locked_idempotent); reflexivity. Defined.

Lemma allocate_locked_already_bound_witness :
  bus1_message_allocate_locked Simple.message_bound Simple.peer_bound 7%nat
    = (- EINVAL, Simple.message_bound, Simple.peer_bound).
Proof. apply allocate_locked_already_bound. left. discriminate. Defined.

(** C6, as the specification has it, fails: with slots free in the
    descriptor table and room in the slice, InstallFds still fails, with
    -ENOMEM, when the array of slot numbers cannot be allocated; no slot
    reservation and no pool write has failed, none was even tried. *)
Lemma install_fds_enomem_not_specified :
  ¬ fails_only_as_specified Simple.message_bound Simple.peer_bound
      (Simple.kernel0 (λ _, false) 8).
Proof.
  intros Hspec.
  destruct (Hspec (- ENOMEM) Simple.message_bound Simple.peer_bound
              (Simple.kernel0 (λ _, false) 8))
    as [[k' Hres]|(fds & k' & p & Hres & Hw & _)].
  - reflexivity.
  - unfold ENOMEM. lia.
  - vm_compute in Hres. discriminate.
  - vm_compute in Hres. injection Hres as <- <-.
    vm_compute in Hw. discriminate.
Qed.

Lemma install_fds_failures_witness :
  out_of_memory Simple.message_bound (Simple.kernel0 (λ _, false) 8)
    (- ENOMEM) ∨
  (kmalloc (fds_len Simple.message_bound)
     (Simple.kernel0 (λ _, false) 8) = true ∧
   resource_exhausted Simple.message_bound (Simple.kernel0 (λ _, false) 8)
     (- ENOMEM)) ∨
  (kmalloc (fds_len Simple.message_bound)
     (Simple.kernel0 (λ _, false) 8) = true ∧
   write_failure Simple.message_bound Simple.peer_bound
     (Simple.kernel0 (λ _, false) 8) (- ENOMEM)).
Proof.
  apply (install_fds_failures Simple.message_bound Simple.peer_bound
           (Simple.kernel0 (λ _, false) 8) (- ENOMEM)
           Simple.message_bound Simple.peer_bound
           (Simple.kernel0 (λ _, false) 8)).
  - reflexivity.
  - unfold ENOMEM. lia.
Defined.

(** * Further properties of message.c *)

(** ** Destroy and the file references *)

Lemma held_S fs i todo f :
  held fs i (S todo) f =
    ((if decide (fs !! i = Some (Some f)) then 1 else 0)
     + held fs (S i) todo f)%nat.
Proof.
  unfold held. destruct (fs !! i) as [o|] eqn:Hi.
  - rewrite (drop_S _ _ _ Hi). simpl take. rewrite filter_cons.
    destruct (decide (o = Some f)) as [->|Hne].
    + by rewrite decide_True.
    + rewrite decide_False; [done | congruence].
  - apply lookup_ge_None in Hi.
    rewrite !drop_ge, !take_nil by lia. by rewrite decide_False.
Qed.

Lemma fput_lookup f g k :
  f_count (fput f k) !! g =
    if decide (g = f) then drop_refs 1 (f_count k !! f) else f_count k !! g.
Proof.
  unfold fput. simpl. destruct (decide (g = f)) as [->|Hne].
  - destruct (f_count k !! f) as [[|[|n]]|] eqn:Hf; unfold drop_refs.
    + by rewrite lookup_delete_eq.
    + by rewrite lookup_delete_eq.
    + rewrite lookup_insert_eq. case_decide; [f_equal; lia | lia].
    + done.
  - destruct (f_count k !! f) as [[|[|n]]|];
      by rewrite ?lookup_delete_ne, ?lookup_insert_ne.
Qed.

Lemma drop_refs_S c o : drop_refs (S c) o = drop_refs c (drop_refs 1 o).
Proof.
  destruct o as [n|]; [|by destruct c]. destruct c as [|c]; [done|].
  simpl. repeat case_decide; try lia; try done. f_equal. lia.
Qed.

Lemma free_files_frame fs : ∀ todo i k,
  open_fds (free_files fs i todo k) = open_fds k ∧
  close_on_exec (free_files fs i todo k) = close_on_exec k ∧
  fdt (free_files fs i todo k) = fdt k.
Proof.
  induction todo as [|todo IH]; intros i k; simpl; [done|].
  destruct (IH (S i) match fs !! i with
                     | Some (Some f) => fput f k
                     | _ => k
                     end) as (-> & -> & ->).
  by destruct (fs !! i) as [[f|]|].
Qed.

Lemma free_files_count fs g : ∀ todo i k,
  f_count (free_files fs i todo k) !! g =
    drop_refs (held fs i todo g) (f_count k !! g).
Proof.
  induction todo as [|todo IH]; intros i k; [done|].
  simpl free_files. rewrite IH, held_S.
  destruct (fs !! i) as [[f|]|] eqn:Hi.
  - rewrite fput_lookup. destruct (decide (g = f)) as [->|Hne].
    + rewrite decide_True by done. by rewrite <- drop_refs_S.
    + rewrite decide_False by congruence. done.
  - by rewrite decide_False.
  - by rewrite decide_False.
Qed.

Lemma free_files_no_files fs :
  (∀ i f, fs !! i ≠ Some (Some f)) →
  ∀ todo i k, free_files fs i todo k = k.
Proof.
  intros Hfs. induction todo as [|todo IH]; intros i k; simpl; [done|].
  rewrite IH. destruct (fs !! i) as [[f|]|] eqn:Hi; [|done..].
  by destruct (Hfs i f).
Qed.

Section lifecycle_manager.
Context `{layout : !bus1_layout}.


End lifecycle_manager.

(** X2: Destroy drops one reference per filled file slot and does nothing
    else to the process: the descriptor table is as before, a file in no
    slot keeps its count, a file in c slots with more than c references
    keeps the rest, and a file in c > 0 slots with at most c references is
    released. *)
Theorem free_drops_references m k :
  open_fds (bus1_message_free (Some m) k).2 = open_fds k ∧
  fdt (bus1_message_free (Some m) k).2 = fdt k ∧
  (∀ f, held (files m) 0 (Z.to_nat (n_fds (data m))) f = 0%nat →
        f_count (bus1_message_free (Some m) k).2 !! f = f_count k !! f) ∧
  (∀ f n, f_count k !! f = Some n →
          (held (files m) 0 (Z.to_nat (n_fds (data m))) f < n)%nat →
          f_count (bus1_message_free (Some m) k).2 !! f =
            Some (n - held (files m) 0 (Z.to_nat (n_fds (data m))) f)%nat) ∧
  (∀ f n, f_count k !! f = Some n →
          (0 < held (files m) 0 (Z.to_nat (n_fds (data m))) f)%nat →
          (n ≤ held (files m) 0 (Z.to_nat (n_fds (data m))) f)%nat →
          f_count (bus1_message_free (Some m) k).2 !! f = None).
Proof.
  simpl.
  destruct (free_files_frame (files m) (Z.to_nat (n_fds (data m))) 0%nat k)
    as (Ho & _ & Hf).
  split; [done|]. split; [done|].
  split; [|split]; intros f.
  - intros Hc. by rewrite free_files_count, Hc.
  - intros n Hn Hc. rewrite free_files_count, Hn.
    destruct (held _ _ _ _) as [|c]; simpl.
    + f_equal. lia.
    + by rewrite decide_True by lia.
  - intros n Hn Hpos Hc. rewrite free_files_count, Hn.
    destruct (held _ _ _ _) as [|c]; simpl; [lia|].
    by rewrite decide_False by lia.
Qed.

(** ** InstallFds: file references, descriptors already open, close-on-exec *)

Lemma unreserve_down_f_count fds : ∀ i k,
  f_count (unreserve_down fds i k) = f_count k.
Proof. induction i as [|i IH]; intros k; simpl; [done|]. by rewrite IH. Qed.

Lemma unreserve_up_f_count fds : ∀ todo i k,
  f_count (unreserve_up fds i todo k) = f_count k.
Proof.
  induction todo as [|todo IH]; intros i k; simpl; [done|]. by rewrite IH.
Qed.

(** The slots reserved with O_CLOEXEC are close-on-exec, and no
    reservation touches a file reference. *)
Lemma reserve_fds_frame : ∀ todo fds k,
  (∀ x, x ∈ fds → x ∈ close_on_exec k) →
  match reserve_fds todo fds k with
  | inl (r, k') => f_count k' = f_count k
  | inr (fds', k') =>
      f_count k' = f_count k ∧ ∀ x, x ∈ fds' → x ∈ close_on_exec k'
  end.
Proof.
  induction todo as [|todo IH]; intros fds k Hcx; simpl; [done|].
  unfold get_unused_fd_flags.
  destruct (find_next_fd _ _ _) as [fd|] eqn:Hfd.
  - apply find_next_fd_spec in Hfd as [_ ?].
    destruct (Z.ltb_spec fd 0) as [|_]; [lia|].
    change (Z.land O_CLOEXEC O_CLOEXEC =? 0) with false. cbv iota.
    match goal with |- context [reserve_fds todo ?l ?k1] =>
      specialize (IH l k1) end.
    destruct (reserve_fds _ _ _) as [[r' k']|[fds' k']]; apply IH.
    + intros x [?|Hx%list_elem_of_singleton]%elem_of_app; simpl;
        rewrite elem_of_union, elem_of_singleton; [right; auto | by left].
    + intros x [?|Hx%list_elem_of_singleton]%elem_of_app; simpl;
        rewrite elem_of_union, elem_of_singleton; [right; auto | by left].
  - change (- EMFILE <? 0) with true. cbv iota.
    apply unreserve_down_f_count.
Qed.

Lemma install_files_frame fds fs : ∀ todo i k k',
  install_files fds fs i todo k = Some k' →
  open_fds k' = open_fds k ∧ close_on_exec k' = close_on_exec k ∧
  ∀ x, (∀ j, (i ≤ j < i + todo)%nat → fds !!! j ≠ x) →
       fdt k' !! x = fdt k !! x.
Proof.
  induction todo as [|todo IH]; intros i k k'; simpl.
  { by intros [= <-]. }
  destruct (fs !! i) as [[f|]|]; [|done..]. intros Hrec.
  apply IH in Hrec as (-> & -> & Hout). do 2 (split; [done|]).
  intros x Hx. rewrite Hout by (intros; apply Hx; lia). simpl.
  apply lookup_insert_ne. apply Hx. lia.
Qed.

Lemma install_files_count fds fs g : ∀ todo i k k',
  install_files fds fs i todo k = Some k' →
  f_count k' !! g = (λ n, n + held fs i todo g)%nat <$> f_count k !! g.
Proof.
  induction todo as [|todo IH]; intros i k k'; simpl install_files.
  { intros [= <-]. change (held fs i 0 g) with 0%nat.
    destruct (f_count k !! g); simpl; [f_equal; lia | done]. }
  rewrite held_S.
  destruct (fs !! i) as [[f|]|] eqn:Hi; [|done..]. intros Hrec.
  rewrite (IH _ _ _ Hrec). simpl. rewrite lookup_alter.
  destruct (decide (f = g)) as [->|Hne].
  - rewrite decide_True by done.
    destruct (f_count k !! g); simpl; [f_equal; lia | done].
  - rewrite decide_False by congruence. done.
Qed.

Section fd_installer_more.
Context {P L : Type}
  `{pool_ops : !bus1_pool P, quota_ops : !bus1_user_quota L,
    layout : !bus1_layout}.

Abbreviation peer := (bus1_peer_info P L).

(** What a returning call of bus1_message_install_fds() has done. *)
Lemma install_fds_outcome m (pi : peer) k r m' pi' k' :
  bus1_message_install_fds m pi k = Some (r, m', pi', k') →
  m' = m ∧ quota pi' = quota pi ∧
  ((r < 0 ∧ open_fds k' = open_fds k ∧ fdt k' = fdt k ∧
    f_count k' = f_count k) ∨
   (r = 0 ∧ ∃ fds k1 rw p,
      reserved k fds k1 ∧
      length fds = Z.to_nat (n_fds (data m)) ∧
      f_count k1 = f_count k ∧
      (∀ x, x ∈ fds → x ∈ close_on_exec k1) ∧
      bus1_pool_write_kvec (pool pi) (slice m) (fds_offset m)
        [{| iov_base := fds; iov_len := fds_len m |}] 1 (fds_len m)
        = (rw, p) ∧
      0 ≤ rw ∧ pi' = {| pool := p; quota := quota pi |} ∧
      install_files fds (files m) 0 (Z.to_nat (n_fds (data m))) k1
        = Some k')).
Proof.
  pose proof (reserve_fds_spec k (Z.to_nat (n_fds (data m))) [] k
                (reserved_nil k)) as Hres.
  pose proof (reserve_fds_frame (Z.to_nat (n_fds (data m))) [] k) as Hfr.
  assert (Hnil : ∀ x : Z, x ∈ [] → x ∈ close_on_exec k)
    by (by intros x ?%not_elem_of_nil).
  specialize (Hfr Hnil).
  destruct (install_fds_path_spec m pi k)
    as [Hk|r1 k1 Hk Hr|fds k1 r1 p Hk Hr Hw Hlt|fds k1 rw p Hk Hr Hw Hrw].
  - intros [= <- <- <- <-]. do 2 (split; [done|]). left. by unfold ENOMEM.
  - intros [= <- <- <- <-].
    rewrite Hr in Hres, Hfr. destruct Hres as (-> & ? & ?).
    do 2 (split; [done|]). left. unfold EMFILE. by split; [lia|].
  - intros [= <- <- <- <-].
    rewrite Hr in Hres, Hfr. destruct Hres as [Hlen Hres].
    destruct Hfr as [Hfc _].
    simpl in Hlen. do 2 (split; [done|]). left. split; [done|].
    destruct (unreserve_up_spec fds (Z.to_nat (n_fds (data m))) 0%nat k1)
      as [Hf Ho].
    split; [|split].
    + eapply reserved_release; [done|]. intros x. rewrite Ho, Hlen.
      split; intros [? Hall]; (split; [done|]); intros j ?; apply Hall; lia.
    + rewrite Hf. apply Hres.
    + by rewrite unreserve_up_f_count.
  - rewrite Hr in Hres, Hfr. destruct Hres as [Hlen Hres].
    destruct Hfr as [Hfc Hcx]. simpl in Hlen.
    destruct (install_files _ _ _ _ _) as [k2|] eqn:Hinst; [|done].
    intros [= <- <- <- <-].
    do 2 (split; [done|]). right. split; [done|].
    by exists fds, k1, rw, p.
Qed.

(** X3: InstallFds takes file references only when it succeeds.  A call
    that returns an error leaves every reference count as it was; a call
    that returns 0 has taken, for each file, one reference per slot of the
    message that holds it. *)
Theorem install_fds_references m (pi : peer) k r m' pi' k' :
  bus1_message_install_fds m pi k = Some (r, m', pi', k') →
  (r < 0 → f_count k' = f_count k) ∧
  (r = 0 → ∀ f,
     f_count k' !! f =
       (λ n, n + held (files m) 0 (Z.to_nat (n_fds (data m))) f)%nat
         <$> f_count k !! f).
Proof.
  intros Hret.
  destruct (install_fds_outcome _ _ _ _ _ _ _ Hret)
    as (_ & _ & [(? & _ & _ & Hfc)
                |(-> & fds & k1 & rw & p & _ & _ & Hfc & _ & _ & _ & _ & Hin)]).
  - split; [done | lia].
  - split; [lia|]. intros _ f.
    by rewrite (install_files_count _ _ f _ _ _ _ Hin), Hfc.
Qed.

(** X4: the references InstallFds takes and the ones Destroy drops cancel.
    After a successful InstallFds, Destroy of the message leaves every file
    that was live before with the reference count it had before: the
    message's references have become the descriptor table's.  Destroy does
    not touch the descriptors InstallFds has just installed. *)
Theorem install_fds_then_free m (pi : peer) k m' pi' k' :
  bus1_message_install_fds m pi k = Some (0, m', pi', k') →
  map_Forall (λ _ n, n ≠ 0%nat) (f_count k) →
  f_count (bus1_message_free (Some m') k').2 = f_count k ∧
  open_fds (bus1_message_free (Some m') k').2 = open_fds k' ∧
  fdt (bus1_message_free (Some m') k').2 = fdt k'.
Proof.
  intros Hret Hlive.
  destruct (install_fds_outcome _ _ _ _ _ _ _ Hret)
    as (-> & _ & [(? & _)
                 |(_ & fds & k1 & rw & p & _ & _ & Hfc & _ & _ & _ & _ & Hin)]);
    [lia|].
  assert (Hcount : ∀ f,
            f_count k' !! f =
              (λ n, n + held (files m) 0 (Z.to_nat (n_fds (data m))) f)%nat
                <$> f_count k !! f).
  { intros f. by rewrite (install_files_count _ _ f _ _ _ _ Hin), Hfc. }
  simpl.
  destruct (free_files_frame (files m) (Z.to_nat (n_fds (data m))) 0%nat k')
    as (Ho & _ & Hf).
  split; [|done]. apply map_eq. intros f.
  rewrite free_files_count, Hcount.
  destruct (f_count k !! f) as [n|] eqn:Hn; simpl.
  - apply Hlive in Hn.
    destruct (held _ _ _ _) as [|c]; simpl; [f_equal; lia|].
    rewrite decide_True by lia. f_equal. lia.
  - by destruct (held _ _ _ _).
Qed.

(** X5: InstallFds never disturbs a descriptor that was open before the
    call: whatever it returns, such a descriptor is still in use and still
    bound to the file it was bound to. *)
Theorem install_fds_keeps_open_fds m (pi : peer) k r m' pi' k' :
  bus1_message_install_fds m pi k = Some (r, m', pi', k') →
  ∀ fd, fd ∈ open_fds k → fd ∈ open_fds k' ∧ fdt k' !! fd = fdt k !! fd.
Proof.
  intros Hret fd Hfd.
  destruct (install_fds_outcome _ _ _ _ _ _ _ Hret)
    as (_ & _ & [(_ & Ho & Hf & _)
                |(_ & fds & k1 & rw & p & Hres & Hlen & _ & _ & _ & _ & _ & Hin)]).
  - by rewrite Ho, Hf.
  - destruct Hres as (Ho1 & _ & Hfresh & Hf1).
    apply install_files_frame in Hin as (Ho & _ & Hout).
    split.
    + rewrite Ho, Ho1, elem_of_union. by left.
    + rewrite Hout, Hf1; [done|]. intros j Hj <-.
      apply (Hfresh (fds !!! j)); [|done].
      apply list_elem_of_lookup_total_2. lia.
Qed.

(** X6: the slot numbers InstallFds publishes are the ones it installs.
    When it returns 0, one pool write at the descriptor offset has carried
    an array of n_fds slot numbers, the peer holds the pool as that write
    left it, and entry i of that array is bound to files[i]. *)
Theorem install_fds_publishes_installed m (pi : peer) k m' pi' k' :
  bus1_message_install_fds m pi k = Some (0, m', pi', k') →
  ∃ fds rw p,
    length fds = Z.to_nat (n_fds (data m)) ∧
    bus1_pool_write_kvec (pool pi) (slice m) (fds_offset m)
      [{| iov_base := fds; iov_len := fds_len m |}] 1 (fds_len m)
      = (rw, p) ∧
    0 ≤ rw ∧ pi' = {| pool := p; quota := quota pi |} ∧
    ∀ i fd, fds !! i = Some fd →
      ∃ f, files m !! i = Some (Some f) ∧ fdt k' !! fd = Some f.
Proof.
  intros Hret.
  destruct (install_fds_outcome _ _ _ _ _ _ _ Hret)
    as (_ & _ & [(? & _)
                |(_ & fds & k1 & rw & p & Hres & Hlen & _ & _ & Hw & Hrw & -> & Hin)]);
    [lia|].
  exists fds, rw, p. do 4 (split; [done|]).
  pose proof (install_files_populated _ _ _ _ _ _ Hin) as Hpop.
  destruct Hres as (_ & Hnd & _ & _).
  destruct (install_files_spec fds (files m) Hnd
              (Z.to_nat (n_fds (data m))) 0%nat k1)
    as (k2 & Hin' & _ & Hbound & _); [lia | done |].
  rewrite Hin in Hin'. injection Hin' as <-.
  intros i fd Hi.
  assert (i < Z.to_nat (n_fds (data m)))%nat
    by (rewrite <- Hlen; by eapply lookup_lt_Some).
  destruct (Hpop i) as [f Hfi]; [lia|]. exists f. split; [done|].
  rewrite <- (list_lookup_total_correct _ _ _ Hi).
  apply Hbound; [lia | done].
Qed.

(** X7: the descriptors InstallFds installs are close-on-exec: when it
    returns 0, every slot in use that was not in use before the call has
    its close-on-exec flag set. *)
Theorem install_fds_close_on_exec m (pi : peer) k m' pi' k' :
  bus1_message_install_fds m pi k = Some (0, m', pi', k') →
  new_fds k k' ⊆ close_on_exec k'.
Proof.
  intros Hret.
  destruct (install_fds_outcome _ _ _ _ _ _ _ Hret)
    as (_ & _ & [(? & _)
                |(_ & fds & k1 & rw & p & Hres & _ & _ & Hcx & _ & _ & _ & Hin)]);
    [lia|].
  apply install_files_frame in Hin as (Ho & Hc & _).
  rewrite (reserved_new_fds _ _ _ _ Hres Ho), Hc.
  intros x Hx%elem_of_list_to_set. by apply Hcx.
Qed.

(** X8: a message without files.  With n_fds = 0 InstallFds reserves no
    slot and cannot fail for lack of memory or of descriptors: it issues
    one zero-length pool write at the descriptor offset, returns that
    write's error if it fails and 0 otherwise, and leaves the kernel state
    as it was. *)
Theorem install_fds_no_fds m (pi : peer) k :
  n_fds (data m) = 0 →
  bus1_message_install_fds m pi k =
    let '(r, p) :=
      bus1_pool_write_kvec (pool pi) (slice m) (fds_offset m)
        [{| iov_base := []; iov_len := 0 |}] 1 0 in
    Some (if r <? 0 then r else 0, m, {| pool := p; quota := quota pi |}, k).
Proof.
  intros Hn. unfold bus1_message_install_fds. fold (fds_offset m).
  rewrite Hn. change (u64 (0 * sizeof_int)) with 0. simpl.
  destruct (bus1_pool_write_kvec _ _ _ _ _ _) as [r p].
  by destruct (r <? 0).
Qed.

(** find_next_fd() finds a free slot when there is one in its range. *)
Lemma find_next_fd_complete bits n : ∀ fd x,
  fd ≤ x < fd + Z.of_nat n → x ∉ bits → is_Some (find_next_fd bits fd n).
Proof.
  induction n as [|n IH]; intros fd x Hx Hfree; simpl; [lia|].
  case_decide as Hfd; [|eauto].
  apply (IH (fd + 1) x); [|done].
  assert (x ≠ fd) by congruence. lia.
Qed.

(** Reserving [todo] slots succeeds when that many are free. *)
Lemma reserve_fds_enough : ∀ todo fds k (free : gset Z),
  free_slots k free → (todo ≤ size free)%nat →
  ∃ fds' k', reserve_fds todo fds k = inr (fds', k').
Proof.
  induction todo as [|todo IH]; intros fds k free Hfree Hsize; simpl;
    [eauto|].
  destruct (size_pos_elem_of free) as [x Hx]; [lia|].
  destruct (Hfree x Hx) as [Hrange Hopen].
  unfold get_unused_fd_flags.
  destruct (find_next_fd_complete (open_fds k) (rlimit_nofile k) 0 x)
    as [fd Hfd]; [lia | done |]. rewrite Hfd.
  apply find_next_fd_spec in Hfd as [Hfdfree Hfdrange].
  destruct (Z.ltb_spec fd 0) as [|_]; [lia|].
  apply (IH _ _ (free ∖ {[fd]})).
  - intros y [Hy Hne]%elem_of_difference.
    destruct (Hfree y Hy) as [? ?]. simpl. split; [done|].
    rewrite elem_of_union. tauto.
  - assert (size free ≤ size (free ∖ {[fd]}) + 1)%nat; [|lia].
    rewrite <- (size_singleton (C := gset Z) fd).
    rewrite <- size_union.
    + apply subseteq_size. intros y Hy.
      rewrite elem_of_union, elem_of_difference.
      destruct (decide (y ∈ ({[fd]} : gset Z))); tauto.
    + intros y [_ ?]%elem_of_difference ?. done.
Qed.

(** X9: when InstallFds succeeds.  If the array of slot numbers can be
    allocated, the process has n_fds free slots below its limit, the n_fds
    file slots of the message are filled and the pool accepts the write of
    the slot numbers, then InstallFds returns 0. *)
Theorem install_fds_succeeds m (pi : peer) k (free : gset Z) :
  kmalloc (fds_len m) k = true →
  free_slots k free → (Z.to_nat (n_fds (data m)) ≤ size free)%nat →
  (∀ i, (i < Z.to_nat (n_fds (data m)))%nat →
        ∃ f, files m !! i = Some (Some f)) →
  (∀ fds,
     0 ≤ (bus1_pool_write_kvec (pool pi) (slice m) (fds_offset m)
            [{| iov_base := fds; iov_len := fds_len m |}] 1 (fds_len m)).1) →
  ∃ pi' k', bus1_message_install_fds m pi k = Some (0, m, pi', k').
Proof.
  intros Hk Hfree Hsize Hpop Hwrite.
  destruct (reserve_fds_enough _ [] k free Hfree Hsize)
    as (fds0 & k0 & Hr0).
  pose proof (reserve_fds_spec k (Z.to_nat (n_fds (data m))) [] k
                (reserved_nil k)) as Hres.
  destruct (install_fds_path_spec m pi k)
    as [Hk'|r1 k1 _ Hr|fds k1 r1 p _ Hr Hw Hlt|fds k1 rw p _ Hr Hw Hrw].
  - congruence.
  - congruence.
  - specialize (Hwrite fds). rewrite Hw in Hwrite. simpl in Hwrite. lia.
  - rewrite Hr in Hres. destruct Hres as [Hlen (_ & Hnd & _)].
    simpl in Hlen.
    destruct (install_files_spec fds (files m) Hnd
                (Z.to_nat (n_fds (data m))) 0%nat k1)
      as (k2 & -> & _); [lia | intros; apply Hpop; lia |].
    simpl. eauto.
Qed.

End fd_installer_more.

(** ** Bind, Unbind and the return values *)

Section binder_more.
Context {P L : Type}
  `{pool_ops : !bus1_pool P, quota_ops : !bus1_user_quota L,
    layout : !bus1_layout}.

Abbreviation peer := (bus1_peer_info P L).

Lemma deallocate_locked_data m (pi : peer) :
  data (bus1_message_deallocate_locked m pi).1 = data m.
Proof.
  destruct (slice m) as [s|] eqn:Hs.
  - by rewrite (deallocate_locked_bound _ _ _ Hs).
  - by rewrite (deallocate_locked_unbound _ _ Hs).
Qed.

(** X10: Unbind resets nothing but the two binding fields.  The counts,
    the payload offset, the handles, the files, the transaction links and
    the queue node are as before; so after Bind and Unbind the message is
    unbound but its payload offset is still the offset of the slice it
    has released. *)
Theorem deallocate_locked_keeps_offset :
  (∀ m (pi : peer),
     data (bus1_message_deallocate_locked m pi).1 = data m ∧
     handles (bus1_message_deallocate_locked m pi).1 = handles m ∧
     files (bus1_message_deallocate_locked m pi).1 = files m ∧
     transaction (bus1_message_deallocate_locked m pi).1 = transaction m ∧
     qnode (bus1_message_deallocate_locked m pi).1 = qnode m) ∧
  (∀ m (pi : peer) u m1 pi1 (pi2 : peer),
     bus1_message_allocate_locked m pi u = (0, m1, pi1) →
     ∃ s, slice m1 = Some s ∧
          slice (bus1_message_deallocate_locked m1 pi2).1 = None ∧
          offset (data (bus1_message_deallocate_locked m1 pi2).1)
            = s_offset s).
Proof.
  split.
  - intros m pi. destruct (slice m) as [s|] eqn:Hs.
    + by rewrite (deallocate_locked_bound _ _ _ Hs).
    + by rewrite (deallocate_locked_unbound _ _ Hs).
  - intros m pi u m1 pi1 pi2 Hret.
    destruct (allocate_locked_bound _ _ _ _ _ Hret)
      as (_ & _ & r & q & s & p & _ & _ & _ & -> & _).
    exists s. split; [done|]. split.
    + apply deallocate_locked_clears.
    + by rewrite deallocate_locked_data.
Qed.

(** X11: Bind whose charge is refused.  On an unbound message, when the
    accountant refuses the charge with r < 0, Bind returns r, does not ask
    the pool, and returns the message unchanged; the ledger is the one the
    refused charge left. *)
Theorem allocate_locked_charge_refused m (pi : peer) u r q :
  user m = None → slice m = None →
  bus1_user_quota_charge (quota pi) (Some u) (n_bytes (data m))
    (n_handles (data m)) (n_fds (data m)) = (r, q) →
  r < 0 →
  bus1_message_allocate_locked m pi u =
    (r, m, {| pool := pool pi; quota := q |}).
Proof.
  intros Hu Hs Hc Hr.
  destruct (allocate_locked_path m pi u)
    as [[?|?]|r' q' _ _ Hc' _|r' q' e' p' _ _ Hc' ? _
        |r' q' s' p' _ _ Hc' ? _];
    [done | done | | |]; rewrite Hc in Hc'; injection Hc' as <- <-;
    [done | lia | lia].
Qed.

(** X12: a message can be bound again after Unbind.  Whatever the message
    was, after Unbind the guard of Bind lets it pass: if the charge is
    accepted and the pool returns a slice, Bind returns 0, the message
    holds the user and the slice, and its payload offset is the offset of
    the new slice. *)
Theorem allocate_locked_after_deallocate m (pi0 pi : peer) u r q s p :
  bus1_user_quota_charge (quota pi) (Some u) (n_bytes (data m))
    (n_handles (data m)) (n_fds (data m)) = (r, q) →
  0 ≤ r →
  bus1_pool_alloc (pool pi) (slice_size m) = (inr s, p) →
  bus1_message_allocate_locked (bus1_message_deallocate_locked m pi0).1 pi u
    = (0,
       set_binding (bus1_message_deallocate_locked m pi0).1
         (Some u) (Some s) (s_offset s),
       {| pool := p; quota := q |}).
Proof.
  intros Hc Hr Ha.
  destruct (deallocate_locked_clears m pi0) as [Hu Hs].
  pose proof (deallocate_locked_data m pi0) as Hd.
  destruct (allocate_locked_path (bus1_message_deallocate_locked m pi0).1
              pi u)
    as [[?|?]|r' q' _ _ Hc' ?|r' q' e' p' _ _ Hc' _ Ha'
        |r' q' s' p' _ _ Hc' _ Ha'];
    [done | done | | |];
    unfold slice_size in *; rewrite Hd in *;
    rewrite Hc in Hc'; injection Hc' as <- <-.
  - lia.
  - rewrite Ha in Ha'. discriminate.
  - rewrite Ha in Ha'. by injection Ha' as <- <-.
Qed.

Lemma install_handles_loop_sign s cs : ∀ offset (p : P),
  (install_handles_loop s cs offset p).1 ≤ 0.
Proof.
  induction cs as [|ids cs IH]; intros offset p; simpl; [done|].
  destruct (0 <? Z.of_nat (length ids)); [|done]. simpl.
  destruct (bus1_pool_write_kvec _ _ _ _ _ _) as [r p'].
  destruct (Z.ltb_spec r 0); [simpl; lia | apply IH].
Qed.

(** X13: the functions of message.c that return an int return 0 or a
    negative value, never a positive one, whatever values the accountant's
    charge and the pool's writes return. *)
Theorem returns_zero_or_negative :
  (∀ m (pi : peer) u, (bus1_message_allocate_locked m pi u).1.1 ≤ 0) ∧
  (∀ m (pi : peer), (bus1_message_install_handles m pi).1.1 ≤ 0) ∧
  (∀ m (pi : peer) k r m' pi' k',
     bus1_message_install_fds m pi k = Some (r, m', pi', k') → r ≤ 0).
Proof.
  split; [|split].
  - intros m pi u.
    destruct (allocate_locked_path m pi u); simpl; unfold EINVAL; lia.
  - intros m pi. unfold bus1_message_install_handles.
    pose proof (install_handles_loop_sign (slice m) (chunks (handles m))
                  (ALIGN (n_bytes (data m)) 8) (pool pi)) as Hsign.
    by destruct (install_handles_loop _ _ _ _).
  - intros m pi k r m' pi' k' Hret.
    destruct (install_fds_outcome _ _ _ _ _ _ _ Hret)
      as (_ & _ & [(? & _)|(-> & _)]); lia.
Qed.

(** ** InstallHandles and the layout of the slice *)

Lemma chunk_writes_tiles base : ∀ cs before,
  0 ≤ base → 0 ≤ before →
  Forall (λ ids : list Z, ids ≠ []) cs →
  base + before + 8 * Z.of_nat (length (concat cs)) < 2 ^ 64 →
  tiles (base + before) (chunk_writes base before cs)
    (base + before + 8 * Z.of_nat (length (concat cs))) ∧
  concat ((λ w, iov_base w.2) <$> chunk_writes base before cs) = concat cs.
Proof.
  induction cs as [|ids cs IH]; intros before Hbase Hbefore Hne Hlim.
  { simpl. rewrite Z.add_0_r. split; [constructor | done]. }
  apply Forall_cons in Hne as [Hids Hne].
  simpl concat in *. rewrite length_app, Nat2Z.inj_add in *.
  simpl chunk_writes.
  destruct (Z.ltb_spec 0 (Z.of_nat (length ids))) as [_|Hlen].
  2: { destruct ids; [done | simpl in Hlen; lia]. }
  destruct (IH (before + 8 * Z.of_nat (length ids))) as [Ht Hc];
    [lia | lia | done | lia |].
  rewrite !u64_small by lia. split.
  - constructor; simpl; [done|].
    replace (base + before + 8 * Z.of_nat (length ids))
      with (base + (before + 8 * Z.of_nat (length ids))) by lia.
    replace (base + before +
             8 * (Z.of_nat (length ids) + Z.of_nat (length (concat cs))))
      with (base + (before + 8 * Z.of_nat (length ids)) +
            8 * Z.of_nat (length (concat cs))) by lia.
    done.
  - by rewrite fmap_cons, concat_cons, Hc.
Qed.

(** X14: the handle identifiers fill their region of the slice.  For
    limited counts, when the chunks of the tracker are non-empty and hold
    n_handles identifiers in all, the writes of InstallHandles carry these
    identifiers in order, the first starts at align8(n_bytes), each next
    one starts where the one before it ends, and the last ends exactly at
    the offset where InstallFds writes the slot numbers; both offsets are
    multiples of 8. *)
Theorem install_handles_tiles m (pi : peer) :
  0 ≤ n_bytes (data m) → 0 ≤ n_handles (data m) →
  n_bytes (data m) + 8 * n_handles (data m) + 16 < 2 ^ 64 →
  Forall (λ ids : list Z, ids ≠ []) (chunks (handles m)) →
  Z.of_nat (length (concat (chunks (handles m)))) = n_handles (data m) →
  ∃ ws,
    bus1_message_install_handles m pi =
      (let '(r, p) := write_all (slice m) ws (pool pi) in
       (r, m, {| pool := p; quota := quota pi |})) ∧
    tiles (ALIGN (n_bytes (data m)) 8) ws (fds_offset m) ∧
    concat ((λ w, iov_base w.2) <$> ws) = concat (chunks (handles m)) ∧
    ALIGN (n_bytes (data m)) 8 mod 8 = 0 ∧ fds_offset m mod 8 = 0.
Proof.
  intros Hb Hh Hlim Hne Htotal.
  exists (chunk_writes (ALIGN (n_bytes (data m)) 8) 0 (chunks (handles m))).
  assert (Hbase : ALIGN (n_bytes (data m)) 8
                  = 8 * ((n_bytes (data m) + 7) / 8)) by (apply ALIGN_8; lia).
  assert (0 ≤ 8 * ((n_bytes (data m) + 7) / 8) ≤ n_bytes (data m) + 7)
    by (Z.div_mod_to_equations; lia).
  assert (Hoff : fds_offset m
                 = ALIGN (n_bytes (data m)) 8 + 8 * n_handles (data m)).
  { unfold fds_offset, sizeof_u64.
    rewrite (u64_small (n_handles (data m) * 8)) by lia.
    rewrite (ALIGN_8 (n_handles (data m) * 8)) by lia.
    replace (8 * ((n_handles (data m) * 8 + 7) / 8))
      with (8 * n_handles (data m)) by (Z.div_mod_to_equations; lia).
    rewrite u64_small; [done|]. rewrite Hbase. lia. }
  split; [|split; [|split; [|split]]].
  - unfold bus1_message_install_handles.
    rewrite <- install_handles_loop_writes, Z.add_0_r.
    rewrite (u64_small (ALIGN _ _)); [done|]. apply ALIGN_range.
  - destruct (chunk_writes_tiles (ALIGN (n_bytes (data m)) 8)
                (chunks (handles m)) 0) as [Ht _];
      [lia | lia | done | rewrite Htotal, Hbase; lia |].
    by rewrite Htotal, Z.add_0_r, <- Hoff in Ht.
  - by destruct (chunk_writes_tiles (ALIGN (n_bytes (data m)) 8)
                   (chunks (handles m)) 0) as [_ Hc];
      [lia | lia | done | rewrite Htotal, Hbase; lia |].
  - rewrite Hbase. by rewrite Z.mul_comm, Z_mod_mult.
  - rewrite Hoff, Hbase.
    replace (8 * ((n_bytes (data m) + 7) / 8) + 8 * n_handles (data m))
      with (((n_bytes (data m) + 7) / 8 + n_handles (data m)) * 8) by lia.
    apply Z_mod_mult.
Qed.

End binder_more.

(** ** The further properties on explicit inputs *)

Lemma simple_install :
  ∃ pi' k',
    bus1_message_install_fds Simple.message_bound Simple.peer_bound
      (Simple.kernel0 (λ _, true) 8)
    = Some (0, Simple.message_bound, pi', k').
Proof. vm_compute. eauto. Qed.


Lemma free_drops_references_witness :
  f_count (bus1_message_free (Some Simple.message_cd)
             (Simple.kernel0 (λ _, true) 8)).2 !! 5%nat = None.
Proof.
  apply (proj2 (proj2 (proj2 (proj2
           (free_drops_references Simple.message_cd
              (Simple.kernel0 (λ _, true) 8))))) 5%nat 1%nat).
  - reflexivity.
  - vm_compute. lia.
  - vm_compute. lia.
Defined.

Lemma install_fds_references_witness :
  f_count (Simple.kernel0 (λ _, false) 8)
    = f_count (Simple.kernel0 (λ _, false) 8).
Proof.
  apply (proj1 (install_fds_references Simple.message_bound
                  Simple.peer_bound (Simple.kernel0 (λ _, false) 8)
                  (- ENOMEM) Simple.message_bound Simple.peer_bound
                  (Simple.kernel0 (λ _, false) 8) eq_refl)).
  unfold ENOMEM. lia.
Defined.

Lemma install_fds_then_free_witness :
  ∃ m' pi' k',
    bus1_message_install_fds Simple.message_bound Simple.peer_bound
      (Simple.kernel0 (λ _, true) 8) = Some (0, m', pi', k') ∧
    f_count (bus1_message_free (Some m') k').2
      = f_count (Simple.kernel0 (λ _, true) 8).
Proof.
  destruct simple_install as (pi' & k' & Hret).
  exists Simple.message_bound, pi', k'. split; [done|].
  apply (install_fds_then_free _ _ _ _ _ _ Hret).
  compute_done.
Defined.

Lemma install_fds_keeps_open_fds_witness :
  ∃ m' pi' k',
    bus1_message_install_fds Simple.message_bound Simple.peer_bound
      (Simple.kernel0 (λ _, true) 8) = Some (0, m', pi', k') ∧
    2 ∈ open_fds k' ∧ fdt k' !! 2 = Some 1%nat.
Proof.
  destruct simple_install as (pi' & k' & Hret).
  exists Simple.message_bound, pi', k'. split; [done|].
  apply (install_fds_keeps_open_fds _ _ _ _ _ _ _ Hret 2).
  compute_done.
Defined.

Lemma install_fds_publishes_installed_witness :
  ∃ fds rw p,
    length fds = 2%nat ∧
    bus1_pool_write_kvec (pool Simple.peer_bound)
      (slice Simple.message_bound) (fds_offset Simple.message_bound)
      [{| iov_base := fds; iov_len := fds_len Simple.message_bound |}] 1
      (fds_len Simple.message_bound) = (rw, p) ∧
    0 ≤ rw.
Proof.
  destruct simple_install as (pi' & k' & Hret).
  destruct (install_fds_publishes_installed _ _ _ _ _ _ Hret)
    as (fds & rw & p & Hlen & Hw & Hrw & _).
  by exists fds, rw, p.
Defined.

Lemma install_fds_close_on_exec_witness :
  ∃ m' pi' k',
    bus1_message_install_fds Simple.message_bound Simple.peer_bound
      (Simple.kernel0 (λ _, true) 8) = Some (0, m', pi', k') ∧
    new_fds (Simple.kernel0 (λ _, true) 8) k' ⊆ close_on_exec k'.
Proof.
  destruct simple_install as (pi' & k' & Hret).
  exists Simple.message_bound, pi', k'. split; [done|].
  apply (install_fds_close_on_exec _ _ _ _ _ _ Hret).
Defined.

Lemma install_fds_no_fds_witness :
  bus1_message_install_fds (Simple.message0 16 1 0 [[42]] []) Simple.peer0
    (Simple.kernel0 (λ _, false) 0)
  = Some (- EFAULT, Simple.message0 16 1 0 [[42]] [], Simple.peer0,
          Simple.kernel0 (λ _, false) 0).
Proof.
  rewrite (install_fds_no_fds (Simple.message0 16 1 0 [[42]] [])
             Simple.peer0 (Simple.kernel0 (λ _, false) 0)).
  - reflexivity.
  - reflexivity.
Defined.

Lemma install_fds_succeeds_witness :
  ∃ pi' k',
    bus1_message_install_fds Simple.message_bound Simple.peer_bound
      (Simple.kernel0 (λ _, true) 8)
    = Some (0, Simple.message_bound, pi', k').
Proof.
  apply (install_fds_succeeds Simple.message_bound Simple.peer_bound
           (Simple.kernel0 (λ _, true) 8) {[3; 4]}).
  - reflexivity.
  - intros x Hx. assert (x = 3 ∨ x = 4) as [-> | ->] by set_solver.
    + split; [simpl; lia|]. compute_done.
    + split; [simpl; lia|]. compute_done.
  - vm_compute. lia.
  - simpl. intros [|[|i]] Hi; [by eexists.. | lia].
  - intros fds. vm_compute. discriminate.
Defined.

Lemma deallocate_locked_keeps_offset_witness :
  ∃ s, slice Simple.message_bound = Some s ∧
    slice (bus1_message_deallocate_locked Simple.message_bound
             Simple.peer_bound).1 = None ∧
    offset (data (bus1_message_deallocate_locked Simple.message_bound
                    Simple.peer_bound).1) = s_offset s.
Proof.
  apply (proj2 deallocate_locked_keeps_offset Simple.message_cd Simple.peer0
           7%nat Simple.message_bound Simple.peer_bound Simple.peer_bound).
  vm_compute. reflexivity.
Defined.

Lemma allocate_locked_charge_refused_witness :
  bus1_message_allocate_locked (Simple.message0 2000 0 0 [] []) Simple.peer0
    7%nat
  = (- EDQUOT, Simple.message0 2000 0 0 [] [], Simple.peer0).
Proof.
  rewrite (allocate_locked_charge_refused (Simple.message0 2000 0 0 [] [])
             Simple.peer0 7%nat (- EDQUOT) (quota Simple.peer0)).
  - reflexivity.
  - reflexivity.
  - reflexivity.
  - vm_compute. reflexivity.
  - unfold EDQUOT. lia.
Defined.

Lemma allocate_locked_after_deallocate_witness :
  (bus1_message_allocate_locked
     (bus1_message_deallocate_locked Simple.message_bound
        Simple.peer_bound).1 Simple.peer0 7%nat).1.1 = 0.
Proof.
  rewrite (allocate_locked_after_deallocate Simple.message_bound
             Simple.peer_bound Simple.peer0 7%nat 0
             (quota Simple.peer_bound) {| s_offset := 0; s_size := 32 |}
             (pool Simple.peer_bound)).
  - reflexivity.
  - vm_compute. reflexivity.
  - lia.
  - vm_compute. reflexivity.
Defined.

Lemma returns_zero_or_negative_witness : - ENOMEM ≤ 0.
Proof.
  apply (proj2 (proj2 returns_zero_or_negative) Simple.message_bound
           Simple.peer_bound (Simple.kernel0 (λ _, false) 8) (- ENOMEM)
           Simple.message_bound Simple.peer_bound
           (Simple.kernel0 (λ _, false) 8)).
  reflexivity.
Defined.

Lemma install_handles_tiles_witness :
  ∃ ws,
    tiles (ALIGN 16 8) ws (fds_offset Simple.message_bound) ∧
    concat ((λ w, iov_base w.2) <$> ws) = [42].
Proof.
  destruct (install_handles_tiles Simple.message_bound Simple.peer_bound)
    as (ws & _ & Ht & Hc & _).
  - simpl. lia.
  - simpl. lia.
  - simpl. lia.
  - simpl. repeat constructor. discriminate.
  - reflexivity.
  - by exists ws.
Defined.
